(** * pganalyze collector: scheduler and daemon lifecycle

    A shallow embedding of [scheduler/scheduler.go] and of the collector's
    [main] package (connection establishment, the collection fan-out, [run]
    and the signal loop of [main]), with the properties of the design
    document stated over it.

    Go values are modelled as follows.
    - [error] is its message ([string]); a nil error is [None].
    - A pointer that may be nil is an [option].
    - A Go map is a [gmap]; reading an absent key gives the zero value.
    - Calls that leave the repository (TOML, cron expressions, database/sql,
      HTTP, the file system) are operations of the class [Externals]; they
      read and change an external state [Env].
    - Goroutines are program counters, and an execution is a list of events
      chosen by the Go scheduler. *)

From stdpp Require Import base option list gmap strings.

(** ** Strings that the source writes with a quote character inside *)

Definition dquote : string := String (Ascii.ascii_of_nat 34) EmptyString.
Definition newline : string := String (Ascii.ascii_of_nat 10) EmptyString.

(** ** External packages *)

(** A pointer to a [sql.DB]: an opaque handle. *)
Definition DB : Type := nat.

(** Modelled from the spec: [config.DatabaseConfig] is declared in the
    [config] package, which is not among the sources.  The spec gives a target
    "connection parameters, SSL mode, identifying name"; the fields below are
    the ones the [main] package reads. *)
Record DatabaseConfig : Type := {
  SectionName : string;
  APIKey : string;
  APIURL : string;
  DbSslMode : string;
  DbParams : string
}.

Definition set_DbSslMode (mode : string) (c : DatabaseConfig) : DatabaseConfig :=
  {| SectionName := SectionName c; APIKey := APIKey c; APIURL := APIURL c;
     DbSslMode := mode; DbParams := DbParams c |}.

#[global] Instance DatabaseConfig_eq_dec : EqDecision DatabaseConfig.
Proof. solve_decision. Defined.

(** [http.Response], as far as [collectStatistics] reads it: the status code
    and what [ioutil.ReadAll] gives for the body. *)
Record Response : Type := {
  StatusCode : nat;
  Body : string + string
}.

(** The JSON document [collectStatistics] builds; its parts are opaque. *)
Record snapshot : Type := {
  ActiveQueries : string;
  Statements : string;
  Relations : string;
  System : string;
  Logs : string;
  Explains : string
}.

Class Externals : Type := {
  Env : Type;
  (** [cronexpr.Expression] and [cronexpr.Parse] *)
  Expression : Type;
  cronexpr_Parse : string → Expression + string;
  (** [expr.Next(time.Now()).Sub(time.Now())], as it is printed *)
  cronexpr_delay : Expression → Env → string * Env;
  (** [toml.Decode] into the scheduler's [config]: interval table and, for
      each group, [Method] and [Interval] *)
  toml_Decode : string → (gmap string string * gmap string (string * string)) + string;
  (** the order in which [range] visits a map *)
  range_order : ∀ A : Type, list (string * A) → list (string * A);
  (** [scheduler.DefaultConfig], declared in a file that is not among the
      sources *)
  DefaultConfig : string;
  (** [config.Read] *)
  config_Read : string → Env → (list DatabaseConfig + string) * Env;
  GetPqOpenString : DatabaseConfig → string;
  (** [sql.Open("postgres", _)] and [Ping] of a [sql.DB] *)
  sql_Open : string → Env → (DB + string) * Env;
  db_Ping : DB → Env → option string * Env;
  (** the collaborators of [collectStatistics] *)
  dbstats_GetActivity : option DB → Env → (string + string) * Env;
  dbstats_GetStatements : option DB → Env → (string + string) * Env;
  dbstats_GetRelations : option DB → Env → (string + string) * Env;
  systemstats_GetSystemSnapshot : DatabaseConfig → Env → string * Env;
  logs_GetLogLines : DatabaseConfig → Env → (string * string) * Env;
  explain_RunExplain : option DB → string → Env → string * Env;
  json_Marshal : snapshot → string;
  json_Indent : string → string;
  zlib_compress : string → string;
  http_PostForm : string → list (string * string) → Env → (Response + string) * Env;
  (** [time.Now().Unix()], printed with [%d] *)
  time_Now_Unix : Env → string * Env;
  (** [user.Current] (the home directory) and [ioutil.WriteFile] of the pid *)
  user_Current : Env → (string + string) * Env;
  write_pidfile : string → Env → option string * Env
}.

(** What the properties assume of the external packages. *)
Class ExternalsLaws (X : Externals) : Prop := {
  (** [range] visits every entry of a map once, in an order of its own *)
  range_order_perm : ∀ A (l : list (string * A)), range_order A l ≡ₚ l;
  (** [cronexpr.Parse] rejects the empty line ("missing field(s)") *)
  Parse_empty : ∀ e, cronexpr_Parse EmptyString ≠ inl e
}.

(** Modelled from the spec: [util.Logger] is declared in the [util] package,
    which is not among the sources.  The spec asks for "a structured log
    stream tagged with the offending target's identity": a logger carries the
    prefix given by [WithPrefix] and its [Verbose] flag, and a printed line
    keeps the prefix, the level, the format and the arguments. *)
Record Logger : Type := {
  Verbose : bool;
  Prefix : string
}.

Inductive Level : Type := LVerbose | LInfo | LError.

Record LogLine : Type := {
  l_prefix : string;
  l_level : Level;
  l_format : string;
  l_args : list string
}.

#[global] Instance Level_eq_dec : EqDecision Level.
Proof. solve_decision. Defined.
#[global] Instance LogLine_eq_dec : EqDecision LogLine.
Proof. solve_decision. Defined.

Definition WithPrefix (name : string) (logger : Logger) : Logger :=
  {| Verbose := Verbose logger; Prefix := name |}.

(** ** The world the program runs in

    The external state, the log written so far, and three traces of calls
    kept for the statements: the configurations [connectToDb] was called
    with, the targets [collectStatistics] was called with, and the
    connections opened and closed. *)
Record World `{Externals} : Type := {
  w_env : Env;
  w_log : list LogLine;
  w_attempts : list DatabaseConfig;
  w_collected : list (DatabaseConfig * option DB);
  w_opened : list DB;
  w_closed : list DB
}.

Section Monad.
Context `{Externals}.

(** Code with effects is a function from the world to a result and the
    world after. *)
Definition M (A : Type) : Type := World → A * World.

Definition ret {A} (a : A) : M A := λ w, (a, w).
Definition bind {A B} (m : M A) (k : A → M B) : M B :=
  λ w, let (a, w') := m w in k a w'.

(** Calling an external operation. *)
Definition ext {A} (f : Env → A * Env) : M A :=
  λ w, let (a, e) := f (w_env w) in
       (a, {| w_env := e; w_log := w_log w; w_attempts := w_attempts w;
              w_collected := w_collected w; w_opened := w_opened w;
              w_closed := w_closed w |}).

Definition print (level : Level) (logger : Logger) (format : string)
    (args : list string) : M unit :=
  λ w, (tt, {| w_env := w_env w;
               w_log := w_log w ++ [{| l_prefix := Prefix logger; l_level := level;
                                       l_format := format; l_args := args |}];
               w_attempts := w_attempts w; w_collected := w_collected w;
               w_opened := w_opened w; w_closed := w_closed w |}).

Definition PrintVerbose := print LVerbose.
Definition PrintInfo := print LInfo.
Definition PrintError := print LError.

Definition note_attempt (c : DatabaseConfig) : M unit :=
  λ w, (tt, {| w_env := w_env w; w_log := w_log w;
               w_attempts := w_attempts w ++ [c];
               w_collected := w_collected w; w_opened := w_opened w;
               w_closed := w_closed w |}).

Definition note_collect (c : DatabaseConfig) (db : option DB) : M unit :=
  λ w, (tt, {| w_env := w_env w; w_log := w_log w; w_attempts := w_attempts w;
               w_collected := w_collected w ++ [(c, db)];
               w_opened := w_opened w; w_closed := w_closed w |}).

Definition note_open (db : DB) : M unit :=
  λ w, (tt, {| w_env := w_env w; w_log := w_log w; w_attempts := w_attempts w;
               w_collected := w_collected w; w_opened := w_opened w ++ [db];
               w_closed := w_closed w |}).

(** [Close] of a [sql.DB] *)
Definition db_Close (db : DB) : M unit :=
  λ w, (tt, {| w_env := w_env w; w_log := w_log w; w_attempts := w_attempts w;
               w_collected := w_collected w; w_opened := w_opened w;
               w_closed := w_closed w ++ [db] |}).
End Monad.

#[global] Instance M_ret `{Externals} : MRet M := @ret _.
#[global] Instance M_bind `{Externals} : MBind M := λ A B k m, bind m k.

(** ** Package scheduler *)

Module scheduler.
Section scheduler.
Context `{Externals}.

Record Group : Type := {
  Method : string;
  IntervalName : string;
  interval : option Expression
}.

Record config : Type := {
  Intervals : gmap string string;
  Groups : gmap string Group
}.

Definition set_interval (expr : Expression) (group : Group) : Group :=
  {| Method := Method group; IntervalName := IntervalName group;
     interval := Some expr |}.

(** What [toml.Decode] leaves in the [config] variable: [interval] has no
    TOML name, so it stays nil. *)
Definition decoded (d : gmap string string * gmap string (string * string)) : config :=
  {| Intervals := d.1;
     Groups := (λ g, {| Method := g.1; IntervalName := g.2; interval := None |}) <$> d.2 |}.

(** The loop of [ReadSchedulerGroups] (lines 51-58) over the entries that
    [range] still has to visit.  [config.Groups] is updated in place; on a
    parse error the function returns with [groups] still nil. *)
Fixpoint resolve (intervals : gmap string string) (todo : list (string * Group))
    (Groups : gmap string Group) : gmap string Group * option string :=
  match todo with
  | [] => (Groups, None)
  | (key, group) :: todo =>
      match cronexpr_Parse (default EmptyString (intervals !! IntervalName group)) with
      | inr err => (∅, Some err)
      | inl expr => resolve intervals todo (<[key := set_interval expr group]> Groups)
      end
  end.

Definition resolveGroups (c : config) : gmap string Group * option string :=
  resolve (Intervals c) (range_order _ (map_to_list (Groups c))) (Groups c).

Definition ReadSchedulerGroups (configData : string) : gmap string Group * option string :=
  match toml_Decode configData with
  | inr err => (∅, Some err)
  | inl d => resolveGroups (decoded d)
  end.

(** *** [Schedule]

    [Schedule] makes the channel [stop] and starts one goroutine, which
    runs the loop of lines 26-39.  The goroutine is its program counter:
    - [AtNext]: at line 27, about to compute the delay;
    - [AtSelect fired]: in the [select] of line 31, the timer of
      [time.After(delay)] armed; [fired] says whether the timer's channel
      is ready;
    - [InRunner r]: inside the call [runner()] of line 35, the runner
      being at [r];
    - [Returned]: after the [return] of line 37;
    - [Panicked]: the goroutine has panicked. *)
Inductive loop_pc (R : Type) : Type :=
| AtNext
| AtSelect (fired : bool)
| InRunner (r : R)
| Returned
| Panicked.
#[global] Arguments AtNext {R}.
#[global] Arguments AtSelect {R} fired.
#[global] Arguments InRunner {R} r.
#[global] Arguments Returned {R}.
#[global] Arguments Panicked {R}.

(** [runner func()] is a closure: a program of its own, with program
    counter [R], over the variables [C] it has captured and the world. *)
Inductive outcome (R : Type) : Type :=
| Continue (r : R)
| Finished
| Panic.
#[global] Arguments Continue {R} r.
#[global] Arguments Finished {R}.
#[global] Arguments Panic {R}.

Record Runner (R C : Type) : Type := {
  r_entry : R;
  r_step : R → C → M (outcome R * C)
}.
#[global] Arguments r_entry {R C} _.
#[global] Arguments r_step {R C} _ _ _ _.

(** The goroutine together with its channel: [g_senders] counts the
    goroutines blocked in a send [stop <- true] ([stop] is unbuffered, so a
    send completes only when the loop receives it). *)
Record Goroutine (R C : Type) : Type := {
  g_pc : loop_pc R;
  g_closure : C;
  g_senders : nat
}.
#[global] Arguments g_pc {R C} _.
#[global] Arguments g_closure {R C} _.
#[global] Arguments g_senders {R C} _.

(** What the Go scheduler, the clock and the callers can make happen:
    - [EvNext]: lines 27-29;
    - [EvTimer]: the timer armed by the [select] expires;
    - [EvFire]: the [select] takes [case <-time.After(delay)] and enters
      [runner()];
    - [EvRunner]: one step of the runner;
    - [EvStop]: the [select] takes [case <-stop] and the loop returns;
    - [EvSignal]: a caller starts a send [stop <- true]. *)
Inductive loop_event : Type :=
| EvNext | EvTimer | EvFire | EvRunner | EvStop | EvSignal.

#[global] Instance loop_event_eq_dec : EqDecision loop_event.
Proof. solve_decision. Defined.

Definition Schedule {R C} (closure : C) : Goroutine R C :=
  {| g_pc := AtNext; g_closure := closure; g_senders := 0 |}.

(** One step of a handle.  [None]: the event cannot happen in this state.
    A [select] with both cases ready may take either. *)
Definition loop_step {R C} (group : Group) (runner : Runner R C)
    (logger : Logger) (logName : string) (e : loop_event)
    (g : Goroutine R C) (w : World) : option (Goroutine R C * World) :=
  match e, g_pc g with
  | EvNext, AtNext =>
      match interval group with
      | None =>
          Some ({| g_pc := Panicked; g_closure := g_closure g;
                   g_senders := g_senders g |}, w)
      | Some expr =>
          let (_, w') :=
            (delay ← ext (cronexpr_delay expr);
             PrintVerbose logger "Scheduled next run for %s in %+v" [logName; delay]) w in
          Some ({| g_pc := AtSelect false; g_closure := g_closure g;
                   g_senders := g_senders g |}, w')
      end
  | EvTimer, AtSelect false =>
      Some ({| g_pc := AtSelect true; g_closure := g_closure g;
               g_senders := g_senders g |}, w)
  | EvFire, AtSelect true =>
      Some ({| g_pc := InRunner (r_entry runner); g_closure := g_closure g;
               g_senders := g_senders g |}, w)
  | EvRunner, InRunner r =>
      let '((o, c), w') := r_step runner r (g_closure g) w in
      Some ({| g_pc := match o with
                       | Continue r' => InRunner r'
                       | Finished => AtNext
                       | Panic => Panicked
                       end;
               g_closure := c; g_senders := g_senders g |}, w')
  | EvStop, AtSelect _ =>
      match g_senders g with
      | 0 => None
      | S n => Some ({| g_pc := Returned; g_closure := g_closure g;
                        g_senders := n |}, w)
      end
  | EvSignal, _ =>
      Some ({| g_pc := g_pc g; g_closure := g_closure g;
               g_senders := S (g_senders g) |}, w)
  | _, _ => None
  end.

(** A run of a handle under a list of events. *)
Fixpoint loop_exec {R C} (group : Group) (runner : Runner R C)
    (logger : Logger) (logName : string) (tr : list loop_event)
    (g : Goroutine R C) (w : World) : option (Goroutine R C * World) :=
  match tr with
  | [] => Some (g, w)
  | e :: tr =>
      match loop_step group runner logger logName e g w with
      | None => None
      | Some (g', w') => loop_exec group runner logger logName tr g' w'
      end
  end.

(** *** The design's statements about a handle *)

(** "If cancellation is requested strictly before the next computed fire
    time, the task is never invoked after that point, even if cancellation
    and fire are requested within the same instant": wherever a run of the
    handle has a sender waiting at a [select] whose timer has not expired,
    no continuation of the run enters the runner. *)
Definition cancellation_wins {R C} (group : Group) (runner : Runner R C)
    (logger : Logger) (logName : string) (g0 : Goroutine R C) (w0 : World) : Prop :=
  ∀ tr1 g1 w1 tr2 g2 w2,
    loop_exec group runner logger logName tr1 g0 w0 = Some (g1, w1) →
    g_pc g1 = AtSelect false →
    0 < g_senders g1 →
    loop_exec group runner logger logName tr2 g1 w1 = Some (g2, w2) →
    ∀ r, g_pc g2 ≠ InRunner r.

(** A further signal on the handle is received: the send that starts in
    [g] completes in some continuation. *)
Definition signal_is_received {R C} (group : Group) (runner : Runner R C)
    (logger : Logger) (logName : string) (g : Goroutine R C) (w : World) : Prop :=
  ∃ g1 w1 tr g2 w2,
    loop_step group runner logger logName EvSignal g w = Some (g1, w1) ∧
    loop_exec group runner logger logName tr g1 w1 = Some (g2, w2) ∧
    g_senders g2 < g_senders g1.

(** "Once cancelled, the handle does nothing further even if signaled
    again", the caller included: after the loop has returned, a further
    signal does not leave its sender blocked. *)
Definition cancellation_idempotent {R C} (group : Group) (runner : Runner R C)
    (logger : Logger) (logName : string) (g0 : Goroutine R C) (w0 : World) : Prop :=
  ∀ tr g w,
    loop_exec group runner logger logName tr g0 w0 = Some (g, w) →
    g_pc g = Returned →
    signal_is_received group runner logger logName g w.
End scheduler.
End scheduler.

(** ** Package main *)

Import scheduler.

(** [sync.WaitGroup]: its counter.  [Add(1)] increments it, [Done] decrements
    it and panics below zero, [Wait] blocks until it is zero. *)
Definition WaitGroup : Type := nat.
Definition wg_Add (wg : WaitGroup) : WaitGroup := S wg.
Definition wg_Done (wg : WaitGroup) : option WaitGroup :=
  match wg with 0 => None | S n => Some n end.
Definition wg_Wait_ready (wg : WaitGroup) : bool := bool_decide (wg = 0).

Inductive Signal : Type := SIGINT | SIGTERM | SIGHUP.

#[global] Instance Signal_eq_dec : EqDecision Signal.
Proof. solve_decision. Defined.

Record configAndConnection : Type := {
  config : DatabaseConfig;
  connection : option DB
}.

#[global] Instance configAndConnection_eq_dec : EqDecision configAndConnection.
Proof. solve_decision. Defined.

(** The command line of [main]. *)
Record Flags : Type := {
  f_test : bool;
  f_verbose : bool;
  f_dry_run : bool;
  f_config : option string;
  f_pidfile : string
}.

Section collector.
Context `{Externals}.

Definition collectStatistics (config : DatabaseConfig) (db : option DB)
    (submitCollectedData : bool) (logger : Logger) : M (option string) :=
  note_collect config db;;
  r ← ext (dbstats_GetActivity db);
  match r with
  | inr err => mret (Some err)
  | inl activity =>
  r ← ext (dbstats_GetStatements db);
  match r with
  | inr err => mret (Some err)
  | inl statements =>
  r ← ext (dbstats_GetRelations db);
  match r with
  | inr err => mret (Some err)
  | inl relations =>
  system ← ext (systemstats_GetSystemSnapshot config);
  '(logs, explainInputs) ← ext (logs_GetLogLines config);
  explains ← ext (explain_RunExplain db explainInputs);
  let statsJSON :=
    json_Marshal {| ActiveQueries := activity; Statements := statements;
                    Relations := relations; System := system; Logs := logs;
                    Explains := explains |} in
  if negb submitCollectedData then
    PrintInfo logger
      ("Dry run - JSON data that would have been sent:" +:+ newline +:+ "%s")
      [json_Indent statsJSON];;
    mret None
  else
    collected_at ← ext time_Now_Unix;
    r ← ext (http_PostForm (APIURL config)
               [("data", zlib_compress statsJSON);
                ("data_compressor", "zlib");
                ("api_key", APIKey config);
                ("submitter", "pganalyze-collector 0.9.0rc1");
                ("system_information", "false");
                ("no_reset", "true");
                ("query_source", "pg_stat_statements");
                ("collected_at", collected_at)]);
    match r with
    | inr err => mret (Some err)
    | inl resp =>
    match Body resp with
    | inr err => mret (Some err)
    | inl body =>
    if negb (StatusCode resp =? 200) then
      mret (Some ("Error when submitting: " +:+ body +:+ newline))
    else
      PrintInfo logger "Submitted snapshot successfully" [];;
      mret None
    end end
  end end end.

Fixpoint collectAllDatabases (databases : list configAndConnection)
    (submitCollectedData : bool) (logger : Logger) : M unit :=
  match databases with
  | [] => mret tt
  | database :: databases =>
      let prefixedLogger := WithPrefix (SectionName (config database)) logger in
      err ← collectStatistics (config database) (connection database)
              submitCollectedData prefixedLogger;
      match err with
      | Some e => PrintError prefixedLogger "%s" [e]
      | None => mret tt
      end;;
      collectAllDatabases databases submitCollectedData logger
  end.

Definition connectToDb (config : DatabaseConfig) (logger : Logger)
    : M (option DB * option string) :=
  note_attempt config;;
  let connectString := GetPqOpenString config in
  PrintVerbose logger
    ("sql.Open(" +:+ dquote +:+ "postgres" +:+ dquote +:+ ", "
       +:+ dquote +:+ "%s" +:+ dquote +:+ ")")
    [connectString];;
  r ← ext (sql_Open connectString);
  match r with
  | inr err => mret (None, Some err)
  | inl db =>
      note_open db;;
      err ← ext (db_Ping db);
      match err with
      | Some e => mret (None, Some e)
      | None => mret (Some db, None)
      end
  end.

Definition establishConnection (cfg : DatabaseConfig) (logger : Logger)
    : M (configAndConnection * option string) :=
  let database := {| config := cfg; connection := None |} in
  let requestedSslMode := DbSslMode cfg in
  let cfg :=
    if String.eqb requestedSslMode "prefer" then set_DbSslMode "require" cfg
    else cfg in
  '(conn, err) ← connectToDb cfg logger;
  let database := {| config := config database; connection := conn |} in
  match err with
  | Some e =>
      if String.eqb e "pq: SSL is not enabled on the server"
         && String.eqb requestedSslMode "prefer" then
        let cfg := set_DbSslMode "disable" cfg in
        '(conn, err) ← connectToDb cfg logger;
        mret ({| config := config database; connection := conn |}, err)
      else mret (database, err)
  | None => mret (database, err)
  end.

(** The loop of [run] at lines 183-191; [databases] is the slice built so
    far. *)
Fixpoint establishAll (logger : Logger) (databaseConfigs : list DatabaseConfig)
    (databases : list configAndConnection) : M (list configAndConnection) :=
  match databaseConfigs with
  | [] => mret databases
  | cfg :: databaseConfigs =>
      let prefixedLogger := WithPrefix (SectionName cfg) logger in
      '(database, err) ← establishConnection cfg prefixedLogger;
      match err with
      | Some e =>
          PrintError prefixedLogger "Error: Failed to connect to database: %s" [e];;
          establishAll logger databaseConfigs databases
      | None =>
          establishAll logger databaseConfigs (databases ++ [database])
      end
  end.

(** The design's reading of that loop: [Establish] is attempted for every
    configured target in turn, whatever happened to the targets before; a
    failure is logged under the target's name.  One outcome is kept per
    target, and the generation is made of the targets that succeeded. *)
Fixpoint establishEach (logger : Logger) (databaseConfigs : list DatabaseConfig)
    : M (list (configAndConnection * option string)) :=
  match databaseConfigs with
  | [] => mret []
  | cfg :: databaseConfigs =>
      let prefixedLogger := WithPrefix (SectionName cfg) logger in
      o ← establishConnection cfg prefixedLogger;
      match o.2 with
      | Some e =>
          PrintError prefixedLogger "Error: Failed to connect to database: %s" [e]
      | None => mret tt
      end;;
      os ← establishEach logger databaseConfigs;
      mret (o :: os)
  end.

Definition generation_of (outcomes : list (configAndConnection * option string))
    : list configAndConnection :=
  (filter (λ o, o.2 = None) outcomes).*1.

(** The closure that [run] hands to [Schedule] (lines 200-204).  It has
    captured [run]'s variables [wg], [databases], [submitCollectedData]
    and [logger]; only [wg] changes. *)
Inductive runner_pc : Type := RAdd | RCollect | RDone.

Definition pass_runner (databases : list configAndConnection)
    (submitCollectedData : bool) (logger : Logger) : Runner runner_pc WaitGroup :=
  {| r_entry := RAdd;
     r_step := λ r wg,
       match r with
       | RAdd => mret (Continue RCollect, wg_Add wg)
       | RCollect =>
           collectAllDatabases databases submitCollectedData logger;;
           mret (Continue RDone, wg)
       | RDone =>
           match wg_Done wg with
           | None => mret (Panic, wg)
           | Some wg' => mret (Finished, wg')
           end
       end |}.

(** A handle as [main] holds it: the channel [stop] with the goroutine
    behind it, and what that goroutine's [Schedule] call was given. *)
Record Handle : Type := {
  h_group : Group;
  h_databases : list configAndConnection;
  h_submit : bool;
  h_logger : Logger;
  h_loop : Goroutine runner_pc WaitGroup
}.

Definition h_runner (h : Handle) : Runner runner_pc WaitGroup :=
  pass_runner (h_databases h) (h_submit h) (h_logger h).

(** [run].  Its parameter [wg] is a [sync.WaitGroup] passed by value: the
    closure captures [run]'s own variable, a copy of the caller's counter.
    The result is the channel [stop] (here with its goroutine), or nil. *)
Definition run (wg : WaitGroup) (testRun submitCollectedData : bool)
    (logger : Logger) (configFilename : string) : M (option Handle) :=
  let '(schedulerGroups, err) := ReadSchedulerGroups DefaultConfig in
  match err with
  | Some _ =>
      PrintError logger
        "Error: Could not read scheduler groups, awaiting SIGHUP or process kill" [];;
      mret None
  | None =>
      r ← ext (config_Read configFilename);
      match r with
      | inr _ =>
          PrintError logger
            "Error: Could not read configuration, awaiting SIGHUP or process kill" [];;
          mret None
      | inl databaseConfigs =>
          databases ← establishAll logger databaseConfigs [];
          if testRun then
            collectAllDatabases databases submitCollectedData logger;;
            mret None
          else
            mret (Some
              {| h_group :=
                   default {| Method := EmptyString; IntervalName := EmptyString;
                              interval := None |}
                           (schedulerGroups !! "stats");
                 h_databases := databases;
                 h_submit := submitCollectedData;
                 h_logger := logger;
                 h_loop := Schedule wg |})
      end
  end.

(** *** [main]

    The main goroutine is its program counter:
    - [MStart flags]: at line 218;
    - [MRun]: at the label [ReadConfigAndRun], about to call [run];
    - [MSigs]: blocked in [s := <-sigs] (line 261);
    - [MStop s]: blocked in [stop <- true] (line 264);
    - [MAfterStop s]: at line 266, the send completed;
    - [MWait]: in [wg.Wait()] (line 274);
    - [MExited]: [main] has returned, the process is gone;
    - [MCrashed]: a goroutine panicked, the process is gone. *)
Inductive main_pc : Type :=
| MStart (flags : Flags)
| MRun
| MSigs
| MStop (s : Signal)
| MAfterStop (s : Signal)
| MWait
| MExited
| MCrashed.

Record Daemon : Type := {
  d_main : main_pc;
  d_testRun : bool;
  d_submitCollectedData : bool;
  d_logger : Logger;
  d_configFilename : string;
  d_wg : WaitGroup;
  d_handles : list Handle;
  d_world : World
}.

Definition set_main (pc : main_pc) (w : World) (d : Daemon) : Daemon :=
  {| d_main := pc; d_testRun := d_testRun d;
     d_submitCollectedData := d_submitCollectedData d; d_logger := d_logger d;
     d_configFilename := d_configFilename d; d_wg := d_wg d;
     d_handles := d_handles d; d_world := w |}.

Definition set_handles (hs : list Handle) (d : Daemon) : Daemon :=
  {| d_main := d_main d; d_testRun := d_testRun d;
     d_submitCollectedData := d_submitCollectedData d; d_logger := d_logger d;
     d_configFilename := d_configFilename d; d_wg := d_wg d;
     d_handles := hs; d_world := d_world d |}.

Definition set_loop (g : Goroutine runner_pc WaitGroup) (h : Handle) : Handle :=
  {| h_group := h_group h; h_databases := h_databases h; h_submit := h_submit h;
     h_logger := h_logger h; h_loop := g |}.

(** The process as it starts. *)
Definition boot (flags : Flags) (w : World) : Daemon :=
  {| d_main := MStart flags; d_testRun := false; d_submitCollectedData := false;
     d_logger := {| Verbose := false; Prefix := EmptyString |};
     d_configFilename := EmptyString; d_wg := 0; d_handles := []; d_world := w |}.

(** Lines 216-252: the logger, the flags, the pidfile, [wg]. *)
Definition main_start (flags : Flags) (d : Daemon) : Daemon :=
  let logger := {| Verbose := f_verbose flags; Prefix := EmptyString |} in
  let (usr, w) := ext user_Current (d_world d) in
  match usr with
  | inr _ =>
      let (_, w) :=
        PrintError logger
          "Could not get user context from operating system - can't initialize, exiting."
          [] w in
      set_main MExited w d
  | inl HomeDir =>
      let configFilename :=
        default (HomeDir +:+ "/.pganalyze_collector.conf") (f_config flags) in
      let '(testRun, submitCollectedData) :=
        if f_dry_run flags then (true, false)
        else if f_test flags then (true, true)
        else (false, true) in
      let d' := {| d_main := MRun; d_testRun := testRun;
                   d_submitCollectedData := submitCollectedData;
                   d_logger := logger; d_configFilename := configFilename;
                   d_wg := 0; d_handles := d_handles d; d_world := w |} in
      if negb (String.eqb (f_pidfile flags) EmptyString) then
        let (err, w) := ext (write_pidfile (f_pidfile flags)) w in
        match err with
        | Some _ =>
            let (_, w) :=
              PrintError logger
                ("Could not write pidfile to " +:+ dquote +:+ "%s" +:+ dquote
                   +:+ " as requested, exiting.")
                [f_pidfile flags] w in
            set_main MExited w d'
        | None => set_main MRun w d'
        end
      else d'
  end.

(** One step of the main goroutine.  [s] is the signal that [sigs]
    delivers; it matters at [MSigs] only.  The send of line 264 is not a
    step of [main] alone: it completes in [loop_event_step], when the loop
    of the handle in [stop] takes it. *)
Definition main_step (s : Signal) (d : Daemon) : option Daemon :=
  match d_main d with
  | MStart flags => Some (main_start flags d)
  | MRun =>
      let (stop, w) :=
        run (d_wg d) (d_testRun d) (d_submitCollectedData d) (d_logger d)
            (d_configFilename d) (d_world d) in
      match stop with
      | None => Some (set_main MExited w d)
      | Some h => Some (set_main MSigs w (set_handles (d_handles d ++ [h]) d))
      end
  | MSigs => Some (set_main (MStop s) (d_world d) d)
  | MStop _ => None
  | MAfterStop s =>
      match s with
      | SIGHUP =>
          let (_, w) := PrintInfo (d_logger d) "Reloading configuration..." [] (d_world d) in
          Some (set_main MRun w d)
      | _ =>
          let (_, w) := PrintInfo (d_logger d) "Exiting..." [] (d_world d) in
          Some (set_main MWait w d)
      end
  | MWait =>
      if wg_Wait_ready (d_wg d) then Some (set_main MExited (d_world d) d) else None
  | MExited => None
  | MCrashed => None
  end.

(** The variable [stop] of [main] holds the handle of the last [run]. *)
Definition is_current (i : nat) (d : Daemon) : bool :=
  bool_decide (S i = length (d_handles d)).

(** The goroutines blocked sending on handle [i]'s channel: [main], when
    it is at line 264 and [i] is the handle in [stop]. *)
Definition senders_of (i : nat) (d : Daemon) : nat :=
  match d_main d with
  | MStop _ => if is_current i d then 1 else 0
  | _ => 0
  end.

Definition alive (d : Daemon) : bool :=
  match d_main d with
  | MExited | MCrashed => false
  | _ => true
  end.

(** Where a step of a loop leaves [main]: a panic ends the process, and
    when the loop takes the signal the send of line 264 completes. *)
Definition main_after (pc : loop_pc runner_pc) (e : loop_event) (m : main_pc)
    : main_pc :=
  match pc, e, m with
  | Panicked, _, _ => MCrashed
  | _, EvStop, MStop s => MAfterStop s
  | _, _, _ => m
  end.

(** One step of the goroutine of handle [i].  [EvSignal] is not an event
    of the daemon: the only sender is [main]. *)
Definition loop_event_step (i : nat) (e : loop_event) (d : Daemon) : option Daemon :=
  if negb (alive d) then None else
  match e with
  | EvSignal => None
  | _ =>
  match d_handles d !! i with
  | None => None
  | Some h =>
      let g := {| g_pc := g_pc (h_loop h); g_closure := g_closure (h_loop h);
                  g_senders := senders_of i d |} in
      match loop_step (h_group h) (h_runner h) (h_logger h)
              "collection of all databases" e g (d_world d) with
      | None => None
      | Some (g', w) =>
          Some (set_main (main_after (g_pc g') e (d_main d)) w
                  (set_handles (<[i := set_loop g' h]> (d_handles d)) d))
      end
  end
  end.

Inductive event : Type :=
| EMain (s : Signal)
| ELoop (i : nat) (e : loop_event).

Definition step (ev : event) (d : Daemon) : option Daemon :=
  match ev with
  | EMain s => main_step s d
  | ELoop i e => loop_event_step i e d
  end.

Fixpoint exec (tr : list event) (d : Daemon) : option Daemon :=
  match tr with
  | [] => Some d
  | ev :: tr =>
      match step ev d with
      | None => None
      | Some d' => exec tr d'
      end
  end.


(** *** The design's statements about generations *)

Definition returned (h : Handle) : Prop := g_pc (h_loop h) = Returned.

(** A collection pass of the handle is in flight. *)
Definition in_flight (h : Handle) : Prop := ∃ r, g_pc (h_loop h) = InRunner r.

(** Every handle but the one in [stop] has returned. *)
Definition old_generations_returned (d : Daemon) : Prop :=
  ∀ i h, d_handles d !! i = Some h → S i < length (d_handles d) → returned h.

(** Where [main] is decides which loops may still be running. *)
Definition generations_ok (d : Daemon) : Prop :=
  match d_main d with
  | MSigs | MStop _ | MCrashed => old_generations_returned d
  | _ => Forall returned (d_handles d)
  end.

(** The generation of handle [i] is retired: a reload has replaced it, or
    the process has exited. *)
Definition retired (i : nat) (d : Daemon) : Prop :=
  S i < length (d_handles d) ∨ d_main d = MExited.

(** "Targets are ... closed when their Generation is retired." *)
Definition retired_closed (d : Daemon) : Prop :=
  ∀ i h database db,
    d_handles d !! i = Some h → retired i d →
    database ∈ h_databases h → connection database = Some db →
    db ∈ w_closed (d_world d).

Definition closes_retired_generations (flags : Flags) (w : World) : Prop :=
  ∀ tr d, exec tr (boot flags w) = Some d → retired_closed d.

(** *** What one sees of a state *)

(** Where [main] is, [main]'s counter, and for each handle where its loop
    is and the counter its closure has captured. *)
Definition observe (d : Daemon)
    : main_pc * WaitGroup * list (loop_pc runner_pc * WaitGroup) :=
  (d_main d, d_wg d, (λ h, (g_pc (h_loop h), g_closure (h_loop h))) <$> d_handles d).

(** The connections of the generations that a reload has replaced. *)
Definition replaced_connections (d : Daemon) : list DB :=
  omap connection
    (mjoin (h_databases <$> take (pred (length (d_handles d))) (d_handles d))).
End collector.

(** ** A sample installation

    Concrete external packages, to run the definitions on: a scheduler
    configuration with one group, three targets ([alpha]'s server has no
    SSL, [beta]'s server is down, [gamma] is fine), and a database driver
    that hands out the handles 0, 1, 2, ... and remembers the connect string
    of each. *)
Module Sample.
Definition alpha : DatabaseConfig :=
  {| SectionName := "alpha"; APIKey := "key"; APIURL := "https://api.example";
     DbSslMode := "prefer"; DbParams := "host=alpha" |}.
Definition beta : DatabaseConfig :=
  {| SectionName := "beta"; APIKey := "key"; APIURL := "https://api.example";
     DbSslMode := "require"; DbParams := "host=beta" |}.
Definition gamma : DatabaseConfig :=
  {| SectionName := "gamma"; APIKey := "key"; APIURL := "https://api.example";
     DbSslMode := "disable"; DbParams := "host=gamma" |}.

Definition Parse (line : string) : string + string :=
  if String.eqb line EmptyString then inr "missing field(s)"
  else if String.eqb line "every day" then inr "syntax error in minute field"
  else inl line.

Definition Decode (data : string)
    : (gmap string string * gmap string (string * string)) + string :=
  if String.eqb data "default" then
    inl ({[ "5min" := "*/5 * * * *" ]},
         {[ "stats" := ("collect", "5min") ]})
  else if String.eqb data "dangling" then
    inl ({[ "5min" := "*/5 * * * *" ]},
         {[ "stats" := ("collect", "5min"); "reports" := ("report", "hourly") ]})
  else inr "toml: bare keys cannot contain that character".

Definition Read (file : string) (env : list string)
    : (list DatabaseConfig + string) * list string :=
  if String.eqb file "/home/pg/.pganalyze_collector.conf" then (inl [alpha; beta; gamma], env)
  else if String.eqb file "/etc/one.conf" then (inl [gamma], env)
  else (inr "open: no such file or directory", env).

Definition OpenString (c : DatabaseConfig) : string :=
  DbParams c +:+ " sslmode=" +:+ DbSslMode c.

Definition Open (connectString : string) (env : list string)
    : (DB + string) * list string :=
  (inl (length env), env ++ [connectString]).

Definition Ping (db : DB) (env : list string) : option string * list string :=
  match env !! db with
  | None => (Some "sql: database is closed", env)
  | Some s =>
      if String.eqb s "host=alpha sslmode=require" then
        (Some "pq: SSL is not enabled on the server", env)
      else if String.eqb s "host=beta sslmode=require" then
        (Some "dial tcp: connection refused", env)
      else (None, env)
  end.

Definition Query (db : option DB) (env : list string)
    : (string + string) * list string :=
  match db with
  | None => (inr "sql: database is closed", env)
  | Some _ => (inl "[]", env)
  end.

Definition externals : Externals :=
  {| Env := list string;
     Expression := string;
     cronexpr_Parse := Parse;
     cronexpr_delay := λ _ env, ("5m0s", env);
     toml_Decode := Decode;
     range_order := λ _ l, reverse l;
     DefaultConfig := "default";
     config_Read := Read;
     GetPqOpenString := OpenString;
     sql_Open := Open;
     db_Ping := Ping;
     dbstats_GetActivity := Query;
     dbstats_GetStatements := Query;
     dbstats_GetRelations := Query;
     systemstats_GetSystemSnapshot := λ _ env, ("{}", env);
     logs_GetLogLines := λ _ env, (("[]", "[]"), env);
     explain_RunExplain := λ _ _ env, ("[]", env);
     json_Marshal := λ s, ActiveQueries s +:+ Statements s;
     json_Indent := λ s, s;
     zlib_compress := λ s, s;
     http_PostForm := λ _ _ env, (inl {| StatusCode := 200; Body := inl "ok" |}, env);
     time_Now_Unix := λ env, ("1446307200", env);
     user_Current := λ env, (inl "/home/pg", env);
     write_pidfile := λ _ env, (None, env) |}.

(** The same installation with a scheduler configuration that names an
    interval which the interval table does not have. *)
Definition dangling : Externals :=
  {| Env := list string;
     Expression := string;
     cronexpr_Parse := Parse;
     cronexpr_delay := λ _ env, ("5m0s", env);
     toml_Decode := Decode;
     range_order := λ _ l, reverse l;
     DefaultConfig := "dangling";
     config_Read := Read;
     GetPqOpenString := OpenString;
     sql_Open := Open;
     db_Ping := Ping;
     dbstats_GetActivity := Query;
     dbstats_GetStatements := Query;
     dbstats_GetRelations := Query;
     systemstats_GetSystemSnapshot := λ _ env, ("{}", env);
     logs_GetLogLines := λ _ env, (("[]", "[]"), env);
     explain_RunExplain := λ _ _ env, ("[]", env);
     json_Marshal := λ s, ActiveQueries s +:+ Statements s;
     json_Indent := λ s, s;
     zlib_compress := λ s, s;
     http_PostForm := λ _ _ env, (inl {| StatusCode := 200; Body := inl "ok" |}, env);
     time_Now_Unix := λ env, ("1446307200", env);
     user_Current := λ env, (inl "/home/pg", env);
     write_pidfile := λ _ env, (None, env) |}.

Definition world : @World externals :=
  @Build_World externals [] [] [] [] [] [].

Definition logger : Logger := {| Verbose := false; Prefix := EmptyString |}.

(** [pganalyze-collector] with no arguments, and with [--config]. *)
Definition daemon_flags : Flags :=
  {| f_test := false; f_verbose := false; f_dry_run := false;
     f_config := None; f_pidfile := EmptyString |}.
Definition flags_with_config (file : string) : Flags :=
  {| f_test := false; f_verbose := false; f_dry_run := false;
     f_config := Some file; f_pidfile := EmptyString |}.

(** The group and the runner of a handle on its own. *)
Definition every5 : @Group externals :=
  @Build_Group externals "collect" "5min" (Some "*/5 * * * *").
Definition runner : @Runner externals runner_pc WaitGroup :=
  pass_runner [] true logger.
Definition handle : @Goroutine runner_pc WaitGroup := Schedule 0.

(** The loop reaches its [select], and a caller signals. *)
Definition signalled : list loop_event := [EvNext; EvSignal].

(** The timer expires before the [select] is resolved, and the [select]
    takes the timer. *)
Definition timer_taken : list loop_event := [EvTimer; EvFire].

(** The loop reaches its [select]; a caller signals; the loop takes the
    signal and returns. *)
Definition cancel : list loop_event := signalled ++ [EvStop].

(** The daemon starts, builds its generation, the timer expires and the
    scheduled task does [wg.Add(1)]. *)
Definition pass_in_flight : list event :=
  [EMain SIGINT; EMain SIGINT;
   ELoop 0 EvNext; ELoop 0 EvTimer; ELoop 0 EvFire; ELoop 0 EvRunner].

(** The daemon starts, builds its generation, gets SIGHUP, stops the
    handle and builds the next generation. *)
Definition reload : list event :=
  [EMain SIGINT; EMain SIGINT; EMain SIGHUP;
   ELoop 0 EvNext; ELoop 0 EvStop; EMain SIGINT; EMain SIGINT].

(** The same, then SIGTERM, and the process exits. *)
Definition reload_then_exit : list event :=
  reload ++ [EMain SIGTERM; ELoop 1 EvNext; ELoop 1 EvStop;
             EMain SIGINT; EMain SIGINT].
End Sample.

(** ** Vocabulary for further properties *)

Section counting.
Context `{Externals}.

(** How often an event occurs in a run of a handle. *)
Definition occurrences (e : loop_event) (tr : list loop_event) : nat :=
  length (filter (λ e', e' = e) tr).

(** Where the loop is, against the numbers of [EvFire], [EvTimer] and
    [EvNext] events so far. *)
Definition counts_agree {R} (pc : loop_pc R) (fires timers nexts : nat) : Prop :=
  match pc with
  | AtNext | InRunner _ => timers = fires ∧ nexts = fires
  | AtSelect false => timers = fires ∧ nexts = S fires
  | AtSelect true => timers = S fires ∧ nexts = S fires
  | Returned | Panicked => fires ≤ timers ∧ timers ≤ nexts ∧ nexts ≤ S fires
  end.
End counting.

Section daemon_vocabulary.
Context `{Externals}.

(** The group that [run] schedules: [schedulerGroups["stats"]], the zero
    [Group] when the default configuration has no such group. *)
Definition stats_group : Group :=
  default {| Method := EmptyString; IntervalName := EmptyString; interval := None |}
          ((ReadSchedulerGroups DefaultConfig).1 !! "stats").

(** What the counter captured by the scheduled task should read, given
    where the loop is: 1 between [wg.Add(1)] and [wg.Done()], 0 elsewhere. *)
Definition counter_of (pc : loop_pc runner_pc) : WaitGroup :=
  match pc with
  | InRunner RCollect | InRunner RDone => 1
  | _ => 0
  end.

Definition connected (database : configAndConnection) : Prop :=
  is_Some (connection database).

Definition handle_ok (h : Handle) : Prop :=
  h_group h = stats_group ∧
  g_closure (h_loop h) = counter_of (g_pc (h_loop h)) ∧
  (g_pc (h_loop h) = Panicked → interval (h_group h) = None) ∧
  Forall connected (h_databases h).

(** The calls of [collectStatistics] since the world [w0] were all made
    with a connection. *)
Definition collected_with_connection (w0 w : World) : Prop :=
  ∃ calls, w_collected w = w_collected w0 ++ calls ∧
           Forall (λ call, is_Some call.2) calls.

Definition daemon_ok (w0 : World) (d : Daemon) : Prop :=
  Forall handle_ok (d_handles d) ∧
  (d_main d = MCrashed → interval stats_group = None) ∧
  d_wg d = 0 ∧
  collected_with_connection w0 (d_world d).
End daemon_vocabulary.

Section one_shot_vocabulary.
Context `{Externals}.

(** [--test] or [--dry-run]: [main] sets [testRun]. *)
Definition one_shot (flags : Flags) : bool := f_dry_run flags || f_test flags.

(** The states of a one-shot run, and how many steps [main] has left. *)
Definition one_shot_state (d : Daemon) : Prop :=
  d_handles d = [] ∧
  match d_main d with
  | MStart flags => one_shot flags = true
  | MRun => d_testRun d = true
  | MExited => True
  | _ => False
  end.

Definition main_steps_left (d : Daemon) : nat :=
  match d_main d with
  | MStart _ => 2
  | MRun => 1
  | _ => 0
  end.

Definition is_main_event (ev : event) : Prop :=
  match ev with
  | EMain _ => True
  | ELoop _ _ => False
  end.
End one_shot_vocabulary.

Section shutdown_vocabulary.
Context `{Externals}.

(** The loop of the handle in [stop] is still running. *)
Definition current_running (d : Daemon) : Prop :=
  ∃ i h, S i = length (d_handles d) ∧ d_handles d !! i = Some h ∧
         g_pc (h_loop h) ≠ Returned ∧ g_pc (h_loop h) ≠ Panicked.

Definition waiting_or_stopping (d : Daemon) : Prop :=
  match d_main d with
  | MSigs | MStop _ => True
  | _ => False
  end.

(** How many steps the loop is from its [select]. *)
Definition steps_to_select (pc : loop_pc runner_pc) : nat :=
  match pc with
  | InRunner RAdd => 4
  | InRunner RCollect => 3
  | InRunner RDone => 2
  | AtNext => 1
  | _ => 0
  end.

(** [main] is sending on [stop], and the loop of that handle is at most [n]
    steps from its [select]. *)
Definition stopping (s : Signal) (n : nat) (d : Daemon) : Prop :=
  d_main d = MStop s ∧ d_wg d = 0 ∧
  ∃ i h, S i = length (d_handles d) ∧ d_handles d !! i = Some h ∧
         handle_ok h ∧
         g_pc (h_loop h) ≠ Returned ∧ g_pc (h_loop h) ≠ Panicked ∧
         steps_to_select (g_pc (h_loop h)) ≤ n.

(** Where a signal leads: SIGHUP to the next call of [run], the others to
    the exit. *)
Definition honoured (s : Signal) (d : Daemon) : Prop :=
  d_main d = (match s with SIGHUP => MRun | _ => MExited end) ∨ d_main d = MCrashed.
End shutdown_vocabulary.

(** ** Recording the submissions

    Any external packages, with the calls of [http.PostForm] written down:
    the external state gets a second component, the list of the URLs and
    forms posted so far.  Every other operation leaves the list alone. *)

Definition Post : Type := string * list (string * string).

Definition keep_posts {E A} (f : E → A * E) : E * list Post → A * (E * list Post) :=
  λ s, let (a, e) := f s.1 in (a, (e, s.2)).

Definition recording (X : Externals) : Externals :=
  {| Env := @Env X * list Post;
     Expression := @Expression X;
     cronexpr_Parse := @cronexpr_Parse X;
     cronexpr_delay := λ expr, keep_posts (@cronexpr_delay X expr);
     toml_Decode := @toml_Decode X;
     range_order := @range_order X;
     DefaultConfig := @DefaultConfig X;
     config_Read := λ file, keep_posts (@config_Read X file);
     GetPqOpenString := @GetPqOpenString X;
     sql_Open := λ s, keep_posts (@sql_Open X s);
     db_Ping := λ db, keep_posts (@db_Ping X db);
     dbstats_GetActivity := λ db, keep_posts (@dbstats_GetActivity X db);
     dbstats_GetStatements := λ db, keep_posts (@dbstats_GetStatements X db);
     dbstats_GetRelations := λ db, keep_posts (@dbstats_GetRelations X db);
     systemstats_GetSystemSnapshot := λ c, keep_posts (@systemstats_GetSystemSnapshot X c);
     logs_GetLogLines := λ c, keep_posts (@logs_GetLogLines X c);
     explain_RunExplain := λ db inputs, keep_posts (@explain_RunExplain X db inputs);
     json_Marshal := @json_Marshal X;
     json_Indent := @json_Indent X;
     zlib_compress := @zlib_compress X;
     http_PostForm := λ url form s,
       let (r, e) := @http_PostForm X url form s.1 in (r, (e, s.2 ++ [(url, form)]));
     time_Now_Unix := keep_posts (@time_Now_Unix X);
     user_Current := keep_posts (@user_Current X);
     write_pidfile := λ file, keep_posts (@write_pidfile X file) |}.

(** The submissions made so far. *)
Definition posts {X : Externals} (w : @World (recording X)) : list Post :=
  (@w_env (recording X) w).2.

(** ** More of the sample installation *)

Module SampleMore.
(** A group that was never resolved. *)
Definition unresolved : @Group Sample.externals :=
  @Build_Group Sample.externals "collect" "5min" None.

(** [pganalyze-collector --test] and [pganalyze-collector --dry-run]. *)
Definition test_flags : Flags :=
  {| f_test := true; f_verbose := false; f_dry_run := false;
     f_config := None; f_pidfile := EmptyString |}.
Definition dry_run_flags : Flags :=
  {| f_test := false; f_verbose := false; f_dry_run := true;
     f_config := None; f_pidfile := EmptyString |}.

(** The sample installation on a system where [user.Current] fails. *)
Definition homeless : Externals :=
  {| Env := list string;
     Expression := string;
     cronexpr_Parse := Sample.Parse;
     cronexpr_delay := λ _ env, ("5m0s", env);
     toml_Decode := Sample.Decode;
     range_order := λ _ l, reverse l;
     DefaultConfig := "default";
     config_Read := Sample.Read;
     GetPqOpenString := Sample.OpenString;
     sql_Open := Sample.Open;
     db_Ping := Sample.Ping;
     dbstats_GetActivity := Sample.Query;
     dbstats_GetStatements := Sample.Query;
     dbstats_GetRelations := Sample.Query;
     systemstats_GetSystemSnapshot := λ _ env, ("{}", env);
     logs_GetLogLines := λ _ env, (("[]", "[]"), env);
     explain_RunExplain := λ _ _ env, ("[]", env);
     json_Marshal := λ s, ActiveQueries s +:+ Statements s;
     json_Indent := λ s, s;
     zlib_compress := λ s, s;
     http_PostForm := λ _ _ env, (inl {| StatusCode := 200; Body := inl "ok" |}, env);
     time_Now_Unix := λ env, ("1446307200", env);
     user_Current := λ env, (inr "user: Current not implemented on this system", env);
     write_pidfile := λ _ env, (None, env) |}.

Definition homeless_world : @World homeless := @Build_World homeless [] [] [] [] [] [].

(** The sample world, with the submissions recorded. *)
Definition recorded_world : @World (recording Sample.externals) :=
  @Build_World (recording Sample.externals) ([], []) [] [] [] [] [].

(** [main] starts and calls [run]. *)
Definition started : list event := [EMain SIGINT; EMain SIGINT].
End SampleMore.

(** * Properties *)

(** ** Resolution of the schedule groups *)

Section scheduler_facts.
Context `{X : Externals}.

Lemma resolve_err intervals todo : ∀ acc,
  (∃ k g e, (k, g) ∈ todo ∧
     cronexpr_Parse (default EmptyString (intervals !! IntervalName g)) = inr e) →
  ∃ err, resolve intervals todo acc = (∅, Some err).
Proof.
  induction todo as [|[k' g'] todo IH]; intros acc (k & g & e & Hin & He).
  - by apply elem_of_nil in Hin.
  - simpl. destruct (cronexpr_Parse (default _ (intervals !! IntervalName g'))) as [expr|err] eqn:Hp; [|by eexists].
    apply IH. exists k, g, e. split; [|done].
    apply elem_of_cons in Hin as [[= -> ->]|Hin]; [congruence|done].
Qed.

Lemma resolve_ok intervals todo : ∀ acc,
  NoDup todo.*1 →
  (∀ k g, (k, g) ∈ todo →
     ∃ expr, cronexpr_Parse (default EmptyString (intervals !! IntervalName g)) = inl expr) →
  ∃ groups, resolve intervals todo acc = (groups, None) ∧
    (∀ k, k ∉ todo.*1 → groups !! k = acc !! k) ∧
    (∀ k g, (k, g) ∈ todo →
       ∃ expr, cronexpr_Parse (default EmptyString (intervals !! IntervalName g)) = inl expr ∧
               groups !! k = Some (set_interval expr g)).
Proof.
  induction todo as [|[k' g'] todo IH]; intros acc Hnd Hall.
  - exists acc. split_and!; [done|done|]. intros k g Hin. by apply elem_of_nil in Hin.
  - simpl in *. apply NoDup_cons in Hnd as [Hk' Hnd].
    destruct (Hall k' g') as [expr Hp]; [apply elem_of_cons; by left|].
    rewrite Hp.
    destruct (IH (<[k' := set_interval expr g']> acc) Hnd) as (groups & Hr & Hout & Hin).
    { intros k g Hkg. apply (Hall k g). apply elem_of_cons. by right. }
    exists groups. split_and!; [done| |].
    + intros k Hk. apply not_elem_of_cons in Hk as [Hne Hk].
      rewrite (Hout k Hk). by rewrite lookup_insert_ne.
    + intros k g Hkg. apply elem_of_cons in Hkg as [[= -> ->]|Hkg]; [|by apply Hin].
      exists expr. split; [done|]. rewrite (Hout k' Hk'). by rewrite lookup_insert_eq.
Qed.

Context `{!ExternalsLaws X}.

Lemma range_order_elem_of {A} (m : gmap string A) k a :
  (k, a) ∈ range_order A (map_to_list m) ↔ m !! k = Some a.
Proof. rewrite range_order_perm. apply elem_of_map_to_list. Qed.

Lemma range_order_NoDup {A} (m : gmap string A) :
  NoDup (range_order A (map_to_list m)).*1.
Proof. rewrite range_order_perm. apply NoDup_fst_map_to_list. Qed.

(** C7.  For a configuration that decodes: if some group names an
    interval that the interval table does not have, or one whose
    expression does not parse, [ReadSchedulerGroups] returns an error and
    no group at all; otherwise it returns every group of the group table,
    each with its expression parsed, and nothing else. *)
Theorem ReadSchedulerGroups_fail_fast configData d :
  toml_Decode configData = inl d →
  let c := decoded d in
  ((∃ k g, Groups c !! k = Some g ∧
      (Intervals c !! IntervalName g = None ∨
       ∃ line e, Intervals c !! IntervalName g = Some line ∧ cronexpr_Parse line = inr e)) →
   ∃ err, ReadSchedulerGroups configData = (∅, Some err)) ∧
  ((∀ k g, Groups c !! k = Some g →
      ∃ line expr, Intervals c !! IntervalName g = Some line ∧ cronexpr_Parse line = inl expr) →
   ∃ groups, ReadSchedulerGroups configData = (groups, None) ∧
     dom groups = dom (Groups c) ∧
     ∀ k g, Groups c !! k = Some g →
       ∃ line expr, Intervals c !! IntervalName g = Some line ∧
         cronexpr_Parse line = inl expr ∧
         groups !! k = Some {| Method := Method g; IntervalName := IntervalName g;
                               interval := Some expr |}).
Proof.
  intros Hd c. unfold ReadSchedulerGroups, resolveGroups. rewrite Hd. fold c. split.
  - intros (k & g & Hg & Hbad). apply resolve_err.
    destruct Hbad as [Habs|(line & e & Hl & He)].
    + destruct (cronexpr_Parse EmptyString) as [expr|e] eqn:Hp.
      { by destruct (Parse_empty expr). }
      exists k, g, e. split; [by apply range_order_elem_of|]. by rewrite Habs.
    + exists k, g, e. split; [by apply range_order_elem_of|]. by rewrite Hl.
  - intros Hall.
    destruct (resolve_ok (Intervals c) (range_order _ (map_to_list (Groups c))) (Groups c))
      as (groups & Hr & Hout & Hin).
    { apply range_order_NoDup. }
    { intros k g Hkg%range_order_elem_of.
      destruct (Hall k g Hkg) as (line & expr & Hl & Hp). exists expr. by rewrite Hl. }
    exists groups. split_and!; [done| |].
    + apply set_eq. intros k. rewrite !elem_of_dom.
      destruct (Groups c !! k) as [g|] eqn:Hk.
      * destruct (Hin k g) as (expr & _ & ->); [by apply range_order_elem_of|].
        split; eauto.
      * rewrite Hout, Hk; [done|].
        intros ([k' g] & -> & Hkg%range_order_elem_of)%list_elem_of_fmap. simpl in *. congruence.
    + intros k g Hk. destruct (Hall k g Hk) as (line & expr & Hl & Hp).
      destruct (Hin k g) as (expr' & Hp' & Hg); [by apply range_order_elem_of|].
      rewrite Hl in Hp'. simpl in Hp'. exists line, expr. split_and!; [done..|].
      rewrite Hg. unfold set_interval. congruence.
Qed.
End scheduler_facts.

(** ** Connection establishment *)

Ltac unfold_monad :=
  unfold mbind, M_bind, bind, mret, M_ret, ret, ext, PrintVerbose, PrintInfo,
    PrintError, print, note_attempt, note_collect, note_open in *.

Ltac run_monad :=
  unfold_monad; simpl in *;
  repeat (case_match; simpl in *; simplify_eq);
  simpl; try done.

Section connection_facts.
Context `{X : Externals}.

Lemma connectToDb_attempts cfg logger w :
  w_attempts (connectToDb cfg logger w).2 = w_attempts w ++ [cfg].
Proof. unfold connectToDb. run_monad. Qed.

Lemma connectToDb_closed cfg logger w :
  w_closed (connectToDb cfg logger w).2 = w_closed w.
Proof. unfold connectToDb. run_monad. Qed.

Lemma connectToDb_log cfg logger w :
  ∃ lines, w_log (connectToDb cfg logger w).2 = w_log w ++ lines.
Proof. unfold connectToDb. run_monad; by eexists. Qed.

(** [connectToDb] returns a connection or an error, never both and never
    neither. *)
Lemma connectToDb_result cfg logger w :
  match (connectToDb cfg logger w).1 with
  | (Some _, None) | (None, Some _) => True
  | _ => False
  end.
Proof. unfold connectToDb. run_monad. Qed.

Lemma set_DbSslMode_twice m1 m2 cfg :
  set_DbSslMode m2 (set_DbSslMode m1 cfg) = set_DbSslMode m2 cfg.
Proof. done. Qed.

(** C4.  With the mode [prefer] the first attempt is made with [require];
    if, and only if, it fails with "pq: SSL is not enabled on the server",
    one more attempt is made with [disable], and its result is the result;
    any other outcome of the first attempt is the result.  With any other
    mode there is one attempt, with the configuration as it was given. *)
Theorem establishConnection_prefer_fallback cfg logger w :
  let '(database, err, w') := establishConnection cfg logger w in
  let require := set_DbSslMode "require" cfg in
  let disable := set_DbSslMode "disable" cfg in
  if decide (DbSslMode cfg = "prefer") then
    let '(conn1, err1, w1) := connectToDb require logger w in
    if decide (err1 = Some "pq: SSL is not enabled on the server") then
      w_attempts w' = w_attempts w ++ [require; disable] ∧
      (connection database, err, w') = connectToDb disable logger w1
    else
      w_attempts w' = w_attempts w ++ [require] ∧
      (connection database, err, w') = (conn1, err1, w1)
  else
    w_attempts w' = w_attempts w ++ [cfg] ∧
    (connection database, err, w') = connectToDb cfg logger w.
Proof.
  destruct (establishConnection cfg logger w) as [[database err] w'] eqn:He.
  unfold establishConnection in He. simpl.
  destruct (decide (DbSslMode cfg = "prefer")) as [Hp|Hp].
  - rewrite Hp in He. simpl in He.
    pose proof (connectToDb_attempts (set_DbSslMode "require" cfg) logger w) as Ha1.
    destruct (connectToDb (set_DbSslMode "require" cfg) logger w) as [[conn1 err1] w1] eqn:H1.
    unfold mbind, M_bind, bind in He. rewrite H1 in He. simpl in *.
    destruct (decide (err1 = Some _)) as [->|Hne].
    + simpl in He. rewrite set_DbSslMode_twice in He.
      pose proof (connectToDb_attempts (set_DbSslMode "disable" cfg) logger w1) as Ha2.
      destruct (connectToDb (set_DbSslMode "disable" cfg) logger w1)
        as [[conn2 err2] w2] eqn:H2.
      unfold mret, M_ret, ret in He. simplify_eq/=.
      split; [|done]. rewrite Ha2, Ha1, <-(assoc_L (++)). done.
    + destruct err1 as [e|]; simpl in He.
      * destruct (String.eqb e _) eqn:Heq.
        { apply String.eqb_eq in Heq. congruence. }
        simpl in He. unfold mret, M_ret, ret in He. by simplify_eq/=.
      * unfold mret, M_ret, ret in He. by simplify_eq/=.
  - destruct (String.eqb (DbSslMode cfg) "prefer") eqn:Heq.
    { by apply String.eqb_eq in Heq. }
    pose proof (connectToDb_attempts cfg logger w) as Ha.
    destruct (connectToDb cfg logger w) as [[conn1 err1] w1] eqn:H1.
    unfold mbind, M_bind, bind in He. rewrite H1 in He. simpl in *.
    destruct err1; [rewrite andb_false_r in He|];
      unfold mret, M_ret, ret in He; by simplify_eq/=.
Qed.

(** C10.  The record that [establishConnection] returns carries the
    configuration it was given, the requested SSL mode included, whatever
    mode the attempts used; with an error its connection is nil, and
    without one it is not. *)
Theorem establishConnection_keeps_config cfg logger w :
  let '(database, err, _) := establishConnection cfg logger w in
  config database = cfg ∧
  (err ≠ None → connection database = None) ∧
  (err = None → is_Some (connection database)).
Proof.
  unfold establishConnection.
  unfold mbind, M_bind, bind, mret, M_ret, ret.
  set (c1 := if String.eqb (DbSslMode cfg) "prefer" then _ else _).
  pose proof (connectToDb_result c1 logger w) as Hr1.
  destruct (connectToDb c1 logger w) as [[conn1 err1] w1]. simpl in *.
  destruct err1 as [e|]; [|by destruct conn1].
  destruct (_ && _).
  - pose proof (connectToDb_result (set_DbSslMode "disable" c1) logger w1) as Hr2.
    destruct (connectToDb _ logger w1) as [[conn2 err2] w2]. simpl in *.
    destruct conn2, err2; naive_solver.
  - simpl. destruct conn1; naive_solver.
Qed.
(** The record returned carries the configuration given, and without an
    error it carries a connection. *)
Lemma establishConnection_record cfg logger w :
  config (establishConnection cfg logger w).1.1 = cfg ∧
  ((establishConnection cfg logger w).1.2 = None →
   is_Some (connection (establishConnection cfg logger w).1.1)).
Proof.
  unfold establishConnection.
  unfold mbind, M_bind, bind, mret, M_ret, ret.
  set (c1 := if String.eqb (DbSslMode cfg) "prefer" then _ else _).
  pose proof (connectToDb_result c1 logger w) as Hr1.
  destruct (connectToDb c1 logger w) as [[conn1 err1] w1]. simpl in *.
  destruct err1 as [e|]; [|by destruct conn1].
  destruct (_ && _).
  - pose proof (connectToDb_result (set_DbSslMode "disable" c1) logger w1) as Hr2.
    destruct (connectToDb _ logger w1) as [[conn2 err2] w2]. simpl in *.
    destruct conn2, err2; naive_solver.
  - simpl. destruct conn1; naive_solver.
Qed.

Lemma establishConnection_log cfg logger w :
  ∃ lines, w_log (establishConnection cfg logger w).2 = w_log w ++ lines.
Proof.
  unfold establishConnection. unfold mbind, M_bind, bind, mret, M_ret, ret.
  set (c1 := if String.eqb (DbSslMode cfg) "prefer" then _ else _).
  destruct (connectToDb_log c1 logger w) as [l1 Hl1].
  destruct (connectToDb c1 logger w) as [[conn1 err1] w1]. simpl in *.
  destruct err1 as [e|]; [|by eexists].
  destruct (_ && _); [|by eexists].
  destruct (connectToDb_log (set_DbSslMode "disable" c1) logger w1) as [l2 Hl2].
  destruct (connectToDb _ logger w1) as [[conn2 err2] w2]. simpl in *.
  exists (l1 ++ l2). by rewrite Hl2, Hl1, (assoc_L (++)).
Qed.

Lemma establishConnection_closed cfg logger w :
  w_closed (establishConnection cfg logger w).2 = w_closed w.
Proof.
  unfold establishConnection. unfold mbind, M_bind, bind, mret, M_ret, ret.
  set (c1 := if String.eqb (DbSslMode cfg) "prefer" then _ else _).
  pose proof (connectToDb_closed c1 logger w) as H1.
  destruct (connectToDb c1 logger w) as [[conn1 err1] w1]. simpl in *.
  destruct err1 as [e|]; [|done].
  destruct (_ && _); [|done].
  pose proof (connectToDb_closed (set_DbSslMode "disable" c1) logger w1) as H2.
  destruct (connectToDb _ logger w1) as [[conn2 err2] w2]. simpl in *. congruence.
Qed.
End connection_facts.

(** ** Isolation between targets *)

Section isolation_facts.
Context `{X : Externals}.

Lemma collectStatistics_collected cfg db submit logger w :
  w_collected (collectStatistics cfg db submit logger w).2 = w_collected w ++ [(cfg, db)].
Proof. unfold collectStatistics. run_monad. Qed.

Lemma collectStatistics_closed cfg db submit logger w :
  w_closed (collectStatistics cfg db submit logger w).2 = w_closed w.
Proof. unfold collectStatistics. run_monad. Qed.

Lemma collectAllDatabases_collected databases submit logger : ∀ w,
  w_collected (collectAllDatabases databases submit logger w).2
  = w_collected w ++ ((λ d, (config d, connection d)) <$> databases).
Proof.
  induction databases as [|d ds IH]; intros w; simpl.
  - by rewrite (right_id_L [] (++)).
  - unfold mbind, M_bind, bind.
    pose proof (collectStatistics_collected (config d) (connection d) submit
                  (WithPrefix (SectionName (config d)) logger) w) as Hc.
    destruct (collectStatistics _ _ _ _ w) as [err w1]. simpl in Hc.
    destruct err as [e|]; simpl; rewrite IH; simpl; rewrite Hc, <-(assoc_L (++)); done.
Qed.

Lemma collectAllDatabases_closed databases submit logger : ∀ w,
  w_closed (collectAllDatabases databases submit logger w).2 = w_closed w.
Proof.
  induction databases as [|d ds IH]; intros w; simpl; [done|].
  unfold mbind, M_bind, bind.
  pose proof (collectStatistics_closed (config d) (connection d) submit
                (WithPrefix (SectionName (config d)) logger) w) as Hc.
  destruct (collectStatistics _ _ _ _ w) as [err w1]. simpl in Hc.
  destruct err as [e|]; simpl; rewrite IH; simpl; done.
Qed.

Lemma establishAll_each logger cfgs : ∀ databases w,
  establishAll logger cfgs databases w
  = (databases ++ generation_of (establishEach logger cfgs w).1,
     (establishEach logger cfgs w).2).
Proof.
  induction cfgs as [|cfg cfgs IH]; intros databases w; simpl.
  - unfold mret, M_ret, ret, generation_of. simpl. by rewrite (right_id_L [] (++)).
  - unfold mbind, M_bind, bind.
    destruct (establishConnection cfg _ w) as [[database err] w1]. simpl.
    destruct err as [e|]; simpl.
    + rewrite IH. destruct (establishEach logger cfgs _) as [os w2]. simpl.
      unfold generation_of. rewrite filter_cons_False; [done|]. simpl. congruence.
    + rewrite IH. unfold mret, M_ret, ret.
      destruct (establishEach logger cfgs w1) as [os w2]. simpl.
      unfold generation_of. rewrite filter_cons_True; [|done]. simpl.
      by rewrite <-(assoc_L (++)).
Qed.

Lemma establishEach_targets logger cfgs : ∀ w,
  (λ o, config o.1) <$> (establishEach logger cfgs w).1 = cfgs.
Proof.
  induction cfgs as [|cfg cfgs IH]; intros w; simpl; [done|].
  unfold mbind, M_bind, bind, mret, M_ret, ret.
  pose proof (establishConnection_record cfg
                (WithPrefix (SectionName cfg) logger) w) as [Hk _].
  destruct (establishConnection cfg _ w) as [[database err] w1]. simpl in *.
  destruct err as [e|]; simpl.
  - specialize (IH (PrintError (WithPrefix (SectionName cfg) logger)
                      "Error: Failed to connect to database: %s" [e] w1).2).
    destruct (establishEach logger cfgs _) as [os w2]. simpl in *. by f_equal.
  - specialize (IH w1).
    destruct (establishEach logger cfgs w1) as [os w2]. simpl in *. by f_equal.
Qed.

Lemma establishEach_logged logger cfgs : ∀ w,
  ∃ lines, w_log (establishEach logger cfgs w).2 = w_log w ++ lines ∧
    ∀ database e, (database, Some e) ∈ (establishEach logger cfgs w).1 →
      {| l_prefix := SectionName (config database); l_level := LError;
         l_format := "Error: Failed to connect to database: %s";
         l_args := [e] |} ∈ lines.
Proof.
  induction cfgs as [|cfg cfgs IH]; intros w; simpl.
  - exists []. split; [by rewrite (right_id_L [] (++))|].
    intros ?? Hin. by apply elem_of_nil in Hin.
  - unfold mbind, M_bind, bind, mret, M_ret, ret.
    destruct (establishConnection_log cfg (WithPrefix (SectionName cfg) logger) w)
      as [l1 Hl1].
    pose proof (establishConnection_record cfg
                  (WithPrefix (SectionName cfg) logger) w) as [Hk _].
    destruct (establishConnection cfg _ w) as [[database err] w1]. simpl in *.
    destruct err as [e|]; simpl.
    + destruct (IH (PrintError (WithPrefix (SectionName cfg) logger)
                      "Error: Failed to connect to database: %s" [e] w1).2)
        as (l2 & Hl2 & Hin2).
      destruct (establishEach logger cfgs _) as [os w2]. simpl in *.
      eexists. split.
      { rewrite Hl2, Hl1, <-!(assoc_L (++)). reflexivity. }
      intros database' e' Hin. apply elem_of_cons in Hin as [[= -> ->]|Hin].
      * rewrite Hk. set_solver.
      * specialize (Hin2 _ _ Hin). set_solver.
    + destruct (IH w1) as (l2 & Hl2 & Hin2).
      destruct (establishEach logger cfgs w1) as [os w2]. simpl in *.
      exists (l1 ++ l2). split.
      { by rewrite Hl2, Hl1, (assoc_L (++)). }
      intros database' e' Hin. apply elem_of_cons in Hin as [[=]|Hin].
      specialize (Hin2 _ _ Hin). set_solver.
Qed.

Lemma establishEach_closed logger cfgs : ∀ w,
  w_closed (establishEach logger cfgs w).2 = w_closed w.
Proof.
  induction cfgs as [|cfg cfgs IH]; intros w; simpl; [done|].
  unfold mbind, M_bind, bind, mret, M_ret, ret.
  pose proof (establishConnection_closed cfg (WithPrefix (SectionName cfg) logger) w) as Hc.
  destruct (establishConnection cfg _ w) as [[database err] w1]. simpl in *.
  destruct err as [e|]; simpl.
  - specialize (IH (PrintError (WithPrefix (SectionName cfg) logger)
                      "Error: Failed to connect to database: %s" [e] w1).2).
    destruct (establishEach logger cfgs _) as [os w2]. simpl in *. by rewrite IH.
  - specialize (IH w1).
    destruct (establishEach logger cfgs w1) as [os w2]. simpl in *. congruence.
Qed.

(** C8.  [Establish] is attempted for every configured target, in order;
    the generation is made of exactly the targets whose outcome is a
    success, in that order, after what the slice held before; each failure
    is logged as an error under the target's section name; and a pass
    calls the collection once for each target of the generation, in order,
    whatever the collections return. *)
Theorem establish_and_collect_isolate_targets logger cfgs databases submit w :
  let '(outcomes, w1) := establishEach logger cfgs w in
  establishAll logger cfgs databases w = (databases ++ generation_of outcomes, w1) ∧
  (λ o, config o.1) <$> outcomes = cfgs ∧
  (∃ lines, w_log w1 = w_log w ++ lines ∧
     ∀ database e, (database, Some e) ∈ outcomes →
       {| l_prefix := SectionName (config database); l_level := LError;
          l_format := "Error: Failed to connect to database: %s";
          l_args := [e] |} ∈ lines) ∧
  (∀ generation w',
     w_collected (collectAllDatabases generation submit logger w').2
     = w_collected w' ++ ((λ d, (config d, connection d)) <$> generation)).
Proof.
  pose proof (establishAll_each logger cfgs databases w) as H1.
  pose proof (establishEach_targets logger cfgs w) as H2.
  pose proof (establishEach_logged logger cfgs w) as H3.
  destruct (establishEach logger cfgs w) as [outcomes w1]. simpl in *.
  split_and!; [done..|]. intros. apply collectAllDatabases_collected.
Qed.
End isolation_facts.

(** ** The handle returned by [Schedule] *)

Section schedule_facts.
Context `{X : Externals} {R C : Type}.
Context (group : Group) (runner : Runner R C) (logger : Logger) (logName : string).

(** After the [return] of line 37 nothing is left of the goroutine: the
    only event is a caller starting a send, which no one will receive. *)
Lemma returned_step e (g g' : Goroutine R C) w w' :
  g_pc g = Returned →
  loop_step group runner logger logName e g w = Some (g', w') →
  e = EvSignal ∧ g_pc g' = Returned ∧ g_closure g' = g_closure g ∧ w' = w ∧
  g_senders g' = S (g_senders g).
Proof.
  unfold loop_step. intros ->. destruct e; intros [= <- <-]; done.
Qed.

Lemma returned_final tr : ∀ (g g' : Goroutine R C) w w',
  g_pc g = Returned →
  loop_exec group runner logger logName tr g w = Some (g', w') →
  g_pc g' = Returned ∧ g_closure g' = g_closure g ∧ w' = w ∧
  g_senders g ≤ g_senders g'.
Proof.
  induction tr as [|e tr IH]; intros g g' w w' Hr; simpl.
  - intros [= <- <-]. done.
  - destruct (loop_step _ _ _ _ e g w) as [[g1 w1]|] eqn:Hs; [|done].
    apply returned_step in Hs as (_ & Hr1 & Hc1 & -> & Hn); [|done].
    intros (? & ? & ? & ?)%IH; [|done]. split_and!; [done|congruence|done|lia].
Qed.

(** C5, as the code has it.  At a [select] with a sender waiting: while
    the timer has not expired the runner cannot be entered; once it has
    expired the [select] may enter the runner; and when the [select] takes
    the signal the loop returns without having touched the closure or the
    world, and never runs the task again. *)
Theorem cancellation_taken_is_final (g : Goroutine R C) w fired :
  g_pc g = AtSelect fired →
  0 < g_senders g →
  (fired = false → loop_step group runner logger logName EvFire g w = None) ∧
  (fired = true → is_Some (loop_step group runner logger logName EvFire g w)) ∧
  ∃ g', loop_step group runner logger logName EvStop g w = Some (g', w) ∧
    g_pc g' = Returned ∧ g_closure g' = g_closure g ∧
    ∀ tr g'' w'',
      loop_exec group runner logger logName tr g' w = Some (g'', w'') →
      g_pc g'' = Returned ∧ g_closure g'' = g_closure g ∧ w'' = w.
Proof.
  intros Hpc Hs. unfold loop_step. rewrite Hpc.
  destruct (g_senders g) as [|n] eqn:Hn; [lia|].
  split_and!.
  - by intros ->.
  - intros ->. by eexists.
  - eexists. split_and!; [done..|].
    intros tr g'' w'' (? & ? & ? & _)%returned_final; done.
Qed.

(** C6, as the code has it.  Once the loop has returned, the handle never
    runs the task nor changes anything, however often it is signalled; but
    a signal sent to it is never received: the sender stays blocked. *)
Theorem cancelled_handle_ignores_signals (g : Goroutine R C) w :
  g_pc g = Returned →
  ∀ tr g' w',
    loop_exec group runner logger logName tr g w = Some (g', w') →
    g_pc g' = Returned ∧ g_closure g' = g_closure g ∧ w' = w ∧
    g_senders g ≤ g_senders g' ∧
    ¬ signal_is_received group runner logger logName g' w'.
Proof.
  intros Hr tr g' w' Hex.
  destruct (returned_final _ _ _ _ _ Hr Hex) as (Hr' & Hc & -> & Hn).
  split_and!; [done..|].
  intros (g1 & w1 & tr' & g2 & w2 & Hs & Hex' & Hlt).
  apply returned_step in Hs as (_ & Hr1 & _ & _ & _); [|done].
  apply returned_final in Hex' as (_ & _ & _ & ?); [lia|done].
Qed.
End schedule_facts.

(** ** The daemon *)

Section daemon_facts.
Context `{X : Externals}.

(** Induction over the executions from a state. *)
Lemma exec_invariant (P : Daemon → Prop) :
  (∀ ev d d', P d → step ev d = Some d' → P d') →
  ∀ tr d d', P d → exec tr d = Some d' → P d'.
Proof.
  intros Hstep. induction tr as [|ev tr IH]; intros d d' HP; simpl.
  - by intros [= <-].
  - destruct (step ev d) as [d1|] eqn:Hs; [|done]. eauto.
Qed.

(** *** What a step changes *)

Lemma main_start_spec flags d :
  let d' := main_start flags d in
  d_handles d' = d_handles d ∧
  (d_main d' = MRun ∨ d_main d' = MExited) ∧
  (d_wg d' = 0 ∨ d_wg d' = d_wg d) ∧
  w_closed (d_world d') = w_closed (d_world d).
Proof.
  unfold main_start. unfold_monad.
  repeat (case_match; simplify_eq/=); simpl; auto.
Qed.

Lemma run_closed wg testRun submit logger configFilename w :
  w_closed (run wg testRun submit logger configFilename w).2 = w_closed w.
Proof.
  unfold run. destruct (ReadSchedulerGroups DefaultConfig) as [groups [err|]]; [done|].
  unfold mbind, M_bind, bind, mret, M_ret, ret, ext.
  destruct (config_Read configFilename (w_env w)) as [[cfgs|err] env]; simpl; [|done].
  rewrite establishAll_each. simpl.
  destruct testRun; simpl.
  - pose proof (collectAllDatabases_closed
                  ([] ++ generation_of (establishEach logger cfgs
                     {| w_env := env; w_log := w_log w; w_attempts := w_attempts w;
                        w_collected := w_collected w; w_opened := w_opened w;
                        w_closed := w_closed w |}).1) submit logger
                  (establishEach logger cfgs
                     {| w_env := env; w_log := w_log w; w_attempts := w_attempts w;
                        w_collected := w_collected w; w_opened := w_opened w;
                        w_closed := w_closed w |}).2) as Hc.
    destruct (collectAllDatabases _ _ _ _) as [[] w1]. simpl in *.
    by rewrite Hc, establishEach_closed.
  - by rewrite establishEach_closed.
Qed.

(** [run] starts a handle only at its last line, with a loop that has not
    run yet. *)
Lemma run_handle wg testRun submit logger configFilename w h :
  (run wg testRun submit logger configFilename w).1 = Some h →
  g_pc (h_loop h) = AtNext ∧ g_closure (h_loop h) = wg ∧ testRun = false.
Proof.
  unfold run. destruct (ReadSchedulerGroups DefaultConfig) as [groups [err|]]; [done|].
  unfold mbind, M_bind, bind, mret, M_ret, ret, ext.
  destruct (config_Read configFilename (w_env w)) as [[cfgs|err] env]; simpl; [|done].
  destruct (establishAll _ _ _ _) as [dbs w1].
  destruct testRun; simpl.
  - by destruct (collectAllDatabases _ _ _ _).
  - by intros [= <-].
Qed.

Lemma main_step_spec s d d' :
  main_step s d = Some d' →
  d_wg d' = 0 ∨ d_wg d' = d_wg d.
Proof.
  unfold main_step. destruct (d_main d) eqn:Hm; try done.
  - intros [= <-]. apply main_start_spec.
  - destruct (run _ _ _ _ _ _) as [[h|] w]; intros [= <-]; auto.
  - intros [= <-]; auto.
  - unfold_monad. destruct s0; intros [= <-]; auto.
  - destruct (wg_Wait_ready _); intros [= <-]; auto.
Qed.

Lemma main_step_closed s d d' :
  main_step s d = Some d' →
  w_closed (d_world d') = w_closed (d_world d).
Proof.
  unfold main_step. destruct (d_main d) eqn:Hm; try done.
  - intros [= <-]. apply main_start_spec.
  - pose proof (run_closed (d_wg d) (d_testRun d) (d_submitCollectedData d)
                  (d_logger d) (d_configFilename d) (d_world d)) as Hc.
    destruct (run _ _ _ _ _ _) as [[h|] w]; intros [= <-]; done.
  - intros [= <-]; auto.
  - unfold_monad. destruct s0; intros [= <-]; auto.
  - destruct (wg_Wait_ready _); intros [= <-]; auto.
Qed.

Lemma loop_step_closed (h : Handle) logName e g w g' w' :
  loop_step (h_group h) (h_runner h) (h_logger h) logName e g w = Some (g', w') →
  w_closed w' = w_closed w.
Proof.
  unfold loop_step.
  destruct e, (g_pc g) as [|[]|r| |]; try done; try (by intros [= <- <-]).
  - destruct (interval _); [|by intros [= <- <-]].
    unfold_monad. destruct (cronexpr_delay _ _). by intros [= <- <-].
  - destruct r; simpl.
    + by intros [= <- <-].
    + unfold mbind, M_bind, bind, mret, M_ret, ret.
      pose proof (collectAllDatabases_closed (h_databases h) (h_submit h)
                    (h_logger h) w) as Hc.
      destruct (collectAllDatabases _ _ _ _) as [[] w1]. by intros [= <- <-].
    + destruct (wg_Done _); by intros [= <- <-].
  - destruct (g_senders g); [done|]. by intros [= <- <-].
  - destruct (g_senders g); [done|]. by intros [= <- <-].
Qed.

Lemma loop_event_step_Some i e d d' :
  loop_event_step i e d = Some d' →
  alive d = true ∧ e ≠ EvSignal ∧
  ∃ h g' w,
    d_handles d !! i = Some h ∧
    loop_step (h_group h) (h_runner h) (h_logger h) "collection of all databases" e
      {| g_pc := g_pc (h_loop h); g_closure := g_closure (h_loop h);
         g_senders := senders_of i d |} (d_world d) = Some (g', w) ∧
    d_handles d' = <[i := set_loop g' h]> (d_handles d) ∧
    d_world d' = w ∧ d_wg d' = d_wg d ∧
    d_main d' = main_after (g_pc g') e (d_main d).
Proof.
  unfold loop_event_step. destruct (alive d); [|done]. simpl.
  intros Hs. split; [done|]. split; [by intros ->|].
  destruct (d_handles d !! i) as [h|] eqn:Hi; [|by destruct e].
  destruct (loop_step _ _ _ _ e _ _) as [[g' w]|] eqn:Hl; [|by destruct e].
  exists h, g', w. destruct e; by simplify_eq/=.
Qed.

Lemma returned_no_event i e d h :
  d_handles d !! i = Some h → returned h → loop_event_step i e d = None.
Proof.
  intros Hi Hr. destruct (loop_event_step i e d) as [d'|] eqn:Hs; [|done].
  apply loop_event_step_Some in Hs as (_ & Hne & h' & g' & w & Hi' & Hs & _).
  simplify_eq. by apply returned_step in Hs as [? _].
Qed.

(** *** Invariants *)

Lemma Forall_old_generations_returned d :
  Forall returned (d_handles d) → old_generations_returned d.
Proof.
  intros Hall i h Hi _. by eapply Forall_lookup_1.
Qed.

Lemma generations_ok_old d : generations_ok d → old_generations_returned d.
Proof.
  unfold generations_ok.
  destruct (d_main d); auto using Forall_old_generations_returned.
Qed.

Lemma step_generations_ok ev d d' :
  generations_ok d → step ev d = Some d' → generations_ok d'.
Proof.
  intros Hok. destruct ev as [s|i e]; simpl.
  - unfold main_step, generations_ok in *. destruct (d_main d) eqn:Hm; try done.
    + intros [= <-]. destruct (main_start_spec flags d) as (Hh & [->| ->] & _);
        by rewrite Hh.
    + destruct (run _ _ _ _ _ _) as [[h|] w]; intros [= <-]; simpl; [|done].
      intros i h' Hi Hlt. simpl in Hi, Hlt. rewrite length_app in Hlt. simpl in Hlt.
      rewrite lookup_app_l in Hi by lia. by eapply Forall_lookup_1.
    + intros [= <-]. done.
    + unfold_monad. destruct s0; intros [= <-]; done.
    + destruct (wg_Wait_ready _); intros [= <-]; done.
  - intros Hs. pose proof Hs as Hs'.
    apply loop_event_step_Some in Hs'
      as (Hal & Hne & h & g' & w & Hi & Hl & Hhs & _ & _ & Hm).
    assert (¬ returned h) as Hnr.
    { intros Hr. by rewrite (returned_no_event i e d h) in Hs. }
    pose proof (generations_ok_old d Hok) as Hold.
    assert (S i = length (d_handles d)) as Hlast.
    { apply lookup_lt_Some in Hi as Hlt.
      destruct (decide (S i = length (d_handles d))); [done|].
      destruct Hnr. apply (Hold i h Hi). lia. }
    assert (old_generations_returned d') as Hold'.
    { intros j h' Hj Hlt. rewrite Hhs in Hj, Hlt. rewrite length_insert in Hlt.
      rewrite list_lookup_insert_ne in Hj by lia. by apply (Hold j). }
    unfold generations_ok, main_after in *. rewrite Hm.
    destruct (d_main d) eqn:Hmd; try done;
      try (destruct Hnr; by eapply (Forall_lookup_1 _ _ _ _ Hok)).
    + destruct (g_pc g'), e; done.
    + destruct (decide (e = EvStop)) as [->|He].
      * assert (g_pc g' = Returned) as Hg'.
        { unfold loop_step in Hl. simpl in Hl.
          destruct (g_pc (h_loop h)); try done.
          destruct (senders_of i d); [done|]. by simplify_eq. }
        rewrite Hg'. apply Forall_lookup_2. intros j h' Hj.
        pose proof Hj as Hlt%lookup_lt_Some.
        destruct (decide (j = i)) as [->|Hji].
        -- rewrite Hhs, list_lookup_insert_eq in Hj by lia. by simplify_eq.
        -- apply (Hold' j h' Hj). rewrite Hhs, length_insert in *. lia.
      * destruct (g_pc g'), e; done.
    + unfold alive in Hal. by rewrite ?Hmd in Hal.
Qed.

Lemma boot_generations_ok flags w : generations_ok (boot flags w).
Proof. unfold generations_ok. simpl. constructor. Qed.

Lemma reachable_generations_ok flags w tr d :
  exec tr (boot flags w) = Some d → generations_ok d.
Proof.
  apply exec_invariant; [|apply boot_generations_ok].
  intros ev d0 d1. apply step_generations_ok.
Qed.

(** [main]'s own [wg] is never incremented: its counter is zero in every
    state. *)
Lemma main_counter_zero flags w tr d :
  exec tr (boot flags w) = Some d → d_wg d = 0.
Proof.
  apply (exec_invariant (λ d, d_wg d = 0)); [|done].
  intros [s|i e] d0 d1 H0; simpl.
  - intros [|]%main_step_spec; congruence.
  - intros (_ & _ & h & g' & w' & _ & _ & _ & _ & ? & _)%loop_event_step_Some.
    congruence.
Qed.

(** When [main] reaches [wg.Wait()], the handshake on [stop] has already
    let every loop return: no pass is in flight. *)
Lemma drained_by_the_stop_handshake flags w tr d :
  exec tr (boot flags w) = Some d →
  d_main d = MWait → Forall returned (d_handles d).
Proof.
  intros Hok%reachable_generations_ok Hm. unfold generations_ok in Hok.
  by rewrite Hm in Hok.
Qed.
(** A step that adds a handle is [main]'s call of [run], and the handle it
    adds has not run yet. *)
Lemma new_handle_step ev d d' :
  step ev d = Some d' →
  length (d_handles d') ≠ length (d_handles d) →
  d_main d = MRun ∧ ∃ h, d_handles d' = d_handles d ++ [h] ∧ g_pc (h_loop h) = AtNext.
Proof.
  destruct ev as [s|i e]; simpl.
  - unfold main_step. destruct (d_main d) eqn:Hm; try done.
    + intros [= <-]. by destruct (main_start_spec flags d) as (-> & _).
    + pose proof (run_handle (d_wg d) (d_testRun d) (d_submitCollectedData d)
                    (d_logger d) (d_configFilename d) (d_world d)) as Hh.
      destruct (run _ _ _ _ _ _) as [[h|] w]; intros [= <-]; simpl; [|done].
      intros _. split; [done|]. exists h. split; [done|]. by apply Hh.
    + by intros [= <-].
    + unfold_monad. destruct s0; by intros [= <-].
    + destruct (wg_Wait_ready _); by intros [= <-].
  - intros (_ & _ & h & g' & w & _ & _ & -> & _)%loop_event_step_Some.
    by rewrite length_insert.
Qed.

(** C3.  In every state the daemon can reach: two handles never have a
    pass in flight together; a handle with a pass in flight can neither
    fire again nor compute its next delay before the runner returns; every
    handle but the current one has returned; and when a step adds the next
    generation's handle, all loops so far have returned. *)
Theorem scheduled_passes_never_overlap flags w tr d :
  exec tr (boot flags w) = Some d →
  (∀ i j hi hj,
     d_handles d !! i = Some hi → d_handles d !! j = Some hj →
     in_flight hi → in_flight hj → i = j) ∧
  (∀ i h r,
     d_handles d !! i = Some h → g_pc (h_loop h) = InRunner r →
     loop_event_step i EvFire d = None ∧ loop_event_step i EvNext d = None) ∧
  old_generations_returned d ∧
  (∀ ev d',
     step ev d = Some d' → length (d_handles d') ≠ length (d_handles d) →
     Forall returned (d_handles d) ∧
     ∃ h, d_handles d' = d_handles d ++ [h] ∧ g_pc (h_loop h) = AtNext).
Proof.
  intros Hok%reachable_generations_ok.
  pose proof (generations_ok_old d Hok) as Hold.
  split_and!; [| |done|].
  - assert (∀ i h, d_handles d !! i = Some h → in_flight h →
              S i = length (d_handles d)) as Hlast.
    { intros i h Hi [r Hr]. apply lookup_lt_Some in Hi as Hlt.
      destruct (decide (S i = length (d_handles d))); [done|].
      assert (returned h) as Hret by (apply (Hold i h Hi); lia).
      unfold returned in Hret. congruence. }
    intros i j hi hj Hi Hj Hfi Hfj.
    apply Hlast in Hi; [|done]. apply Hlast in Hj; [|done]. lia.
  - intros i h r Hi Hpc. unfold loop_event_step.
    destruct (alive d); [|done]. simpl. rewrite Hi. unfold loop_step. simpl.
    by rewrite Hpc.
  - intros ev d' Hs Hlen.
    destruct (new_handle_step ev d d' Hs Hlen) as [Hm Hh]. split; [|done].
    unfold generations_ok in Hok. by rewrite Hm in Hok.
Qed.

(** C2.  When the scheduler groups or the configuration cannot be read,
    [run] logs that it awaits SIGHUP or a kill and returns nil; [main] then
    returns: the process is gone and no event can follow. *)
Theorem config_error_ends_the_process s d :
  d_main d = MRun →
  ((ReadSchedulerGroups DefaultConfig).2 ≠ None ∨
   ∃ e, (config_Read (d_configFilename d) (w_env (d_world d))).1 = inr e) →
  ∃ d' line,
    main_step s d = Some d' ∧
    d_main d' = MExited ∧
    (∀ ev, step ev d' = None) ∧
    d_handles d' = d_handles d ∧
    w_log (d_world d') = w_log (d_world d) ++ [line] ∧
    l_level line = LError ∧
    (l_format line
       = "Error: Could not read scheduler groups, awaiting SIGHUP or process kill" ∨
     l_format line
       = "Error: Could not read configuration, awaiting SIGHUP or process kill").
Proof.
  intros Hm Herr.
  assert (∀ d', d_main d' = MExited → ∀ ev, step ev d' = None) as Hgone.
  { intros d' Hd' [s'|i e]; simpl.
    - unfold main_step. by rewrite Hd'.
    - unfold loop_event_step, alive. by rewrite Hd'. }
  unfold main_step, run. rewrite Hm.
  destruct (ReadSchedulerGroups DefaultConfig) as [groups [err|]] eqn:Hg.
  - unfold_monad. simpl. eexists _, _.
    split_and!; [done|done|by apply Hgone|done|done|done|by left].
  - destruct Herr as [Herr|[e He]]; [done|].
    unfold_monad. simpl.
    destruct (config_Read _ _) as [[cfgs|e'] env]; simplify_eq/=.
    eexists _, _.
    split_and!; [done|done|by apply Hgone|done|done|done|by right].
Qed.

(** C9, as the code has it.  The daemon never closes a connection: in
    every state it can reach, the connections closed are those that were
    closed when it started. *)
Theorem connections_are_never_closed flags w tr d :
  exec tr (boot flags w) = Some d →
  w_closed (d_world d) = w_closed w.
Proof.
  apply (exec_invariant (λ d, w_closed (d_world d) = w_closed w)); [|done].
  intros [s|i e] d0 d1 H0; simpl.
  - intros ->%main_step_closed. done.
  - intros (_ & _ & h & g' & w' & _ & Hl & _ & <- & _)%loop_event_step_Some.
    apply loop_step_closed in Hl. congruence.
Qed.

Lemma elem_of_replaced_connections db d :
  db ∈ replaced_connections d →
  ∃ i h database,
    d_handles d !! i = Some h ∧ retired i d ∧
    database ∈ h_databases h ∧ connection database = Some db.
Proof.
  unfold replaced_connections.
  intros (database & Hin & Hc)%list_elem_of_omap.
  apply list_elem_of_join in Hin as (dbs & Hin & Hdbs).
  apply list_elem_of_fmap in Hdbs as (h & -> & Hh).
  apply list_elem_of_lookup in Hh as [i Hi].
  apply lookup_take_Some in Hi as [Hi Hlt].
  exists i, h, database. split_and!; [done| |done|done].
  left. lia.
Qed.
End daemon_facts.

(** ** The sample installation, run *)

Lemma Sample_dangling_laws : ExternalsLaws Sample.dangling.
Proof.
  split.
  - intros A l. simpl. apply reverse_Permutation.
  - intros e. simpl. unfold Sample.Parse. simpl. discriminate.
Defined.

(** The group [reports] names the interval [hourly], which the interval table
    does not have: nothing is resolved. *)
Lemma ReadSchedulerGroups_fail_fast_witness :
  ∃ err, @ReadSchedulerGroups Sample.dangling "dangling" = (∅, Some err).
Proof.
  refine (proj1 (@ReadSchedulerGroups_fail_fast Sample.dangling Sample_dangling_laws
                   "dangling" _ eq_refl) _).
  exists "reports", (@Build_Group Sample.dangling "report" "hourly" None).
  split; [reflexivity|]. left. reflexivity.
Defined.

(** The configuration file does not exist: [run] returns nil and the daemon
    is gone. *)
Lemma config_error_ends_the_process_witness :
  ∃ d', @main_step Sample.externals SIGHUP
          (main_start (Sample.flags_with_config "/etc/missing.conf")
             (boot (Sample.flags_with_config "/etc/missing.conf") Sample.world))
        = Some d' ∧
        d_main d' = MExited ∧ ∀ ev, step ev d' = None.
Proof.
  destruct (@config_error_ends_the_process Sample.externals SIGHUP
              (main_start (Sample.flags_with_config "/etc/missing.conf")
                 (boot (Sample.flags_with_config "/etc/missing.conf") Sample.world)))
    as (d' & line & Hs & Hm & Hgone & _).
  - reflexivity.
  - right. eexists. vm_compute. reflexivity.
  - exists d'. split; [exact Hs|]. split; [exact Hm|exact Hgone].
Defined.

(** A reload and then a termination: the first handle has returned. *)
Lemma scheduled_passes_never_overlap_witness :
  from_option old_generations_returned False
    (@exec Sample.externals Sample.reload_then_exit
       (boot Sample.daemon_flags Sample.world)).
Proof.
  destruct (exec _ _) as [d|] eqn:He; simpl.
  - exact (proj1 (proj2 (proj2
      (@scheduled_passes_never_overlap Sample.externals Sample.daemon_flags
         Sample.world Sample.reload_then_exit d He)))).
  - apply (f_equal (fmap observe)) in He. vm_compute in He. discriminate He.
Defined.

(** A signal that finds the loop in its [select] with the timer not yet
    expired: the runner cannot be entered. *)
Lemma cancellation_taken_is_final_witness :
  ∃ g w,
    loop_exec Sample.every5 Sample.runner Sample.logger "collection of all databases"
      Sample.signalled Sample.handle Sample.world = Some (g, w) ∧
    loop_step Sample.every5 Sample.runner Sample.logger "collection of all databases"
      EvFire g w = None.
Proof.
  eexists _, _. split; [reflexivity|].
  refine (proj1 (@cancellation_taken_is_final Sample.externals _ _ Sample.every5
                   Sample.runner Sample.logger "collection of all databases"
                   _ _ false _ _) eq_refl).
  - reflexivity.
  - simpl. lia.
Defined.

(** After the loop has taken the signal, a second signal is not received. *)
Lemma cancelled_handle_ignores_signals_witness :
  ∃ g w,
    loop_exec Sample.every5 Sample.runner Sample.logger "collection of all databases"
      Sample.cancel Sample.handle Sample.world = Some (g, w) ∧
    ¬ signal_is_received Sample.every5 Sample.runner Sample.logger
        "collection of all databases" g w.
Proof.
  eexists _, _. split; [reflexivity|].
  refine (proj2 (proj2 (proj2 (proj2
    (@cancelled_handle_ignores_signals Sample.externals _ _ Sample.every5
       Sample.runner Sample.logger "collection of all databases"
       _ _ _ [] _ _ eq_refl))))).
  reflexivity.
Defined.

(** After a reload and the exit, nothing has been closed. *)
Lemma connections_are_never_closed_witness :
  from_option (λ d, w_closed (d_world d) = []) False
    (@exec Sample.externals Sample.reload_then_exit
       (boot Sample.daemon_flags Sample.world)).
Proof.
  destruct (exec _ _) as [d|] eqn:He; simpl.
  - exact (@connections_are_never_closed Sample.externals Sample.daemon_flags
             Sample.world Sample.reload_then_exit d He).
  - apply (f_equal (fmap observe)) in He. vm_compute in He. discriminate He.
Defined.

(** C1.  [run] receives [wg] by value, so the scheduled task counts its
    passes in [run]'s copy.  [main]'s counter is zero in every state, whence
    [wg.Wait()] never blocks; what lets a pass finish before the exit is the
    send on [stop], after which every loop has returned.  In the sample
    installation, with a pass in flight, the task's counter is 1 and
    [main]'s is 0. *)
Theorem drain_waits_on_a_copy_of_the_counter :
  (∀ (X : Externals) flags w tr d,
     exec tr (boot flags w) = Some d →
     d_wg d = 0 ∧ (d_main d = MWait → Forall returned (d_handles d))) ∧
  observe <$> @exec Sample.externals Sample.pass_in_flight
                (boot Sample.daemon_flags Sample.world)
  = Some (MSigs, 0, [(InRunner RCollect, 1)]).
Proof.
  split.
  - intros X flags w tr d Hex. split.
    + by eapply main_counter_zero.
    + by eapply drained_by_the_stop_handshake.
  - vm_compute. reflexivity.
Qed.

(** C5 does not hold as stated.  A caller signals while the loop is in its
    [select] and the timer has not expired; the timer expires before the
    [select] is resolved (the delay comes from the clock and can be as short
    as one likes); both cases are ready, Go chooses between ready cases at
    random, and the [select] takes the timer: the task runs after the
    cancellation was requested. *)
Lemma cancellation_does_not_win_ties :
  ¬ cancellation_wins Sample.every5 Sample.runner Sample.logger
      "collection of all databases" Sample.handle Sample.world.
Proof.
  intros H.
  eapply (H Sample.signalled _ _ Sample.timer_taken _ _).
  - reflexivity.
  - reflexivity.
  - simpl. lia.
  - reflexivity.
  - reflexivity.
Qed.

(** C6 does not hold as stated.  After the loop has taken the first signal
    and returned, a second send on [stop] has no receiver: its sender stays
    blocked. *)
Lemma second_signal_blocks :
  ¬ cancellation_idempotent Sample.every5 Sample.runner Sample.logger
      "collection of all databases" Sample.handle Sample.world.
Proof.
  intros H.
  assert (∃ g w, loop_exec Sample.every5 Sample.runner Sample.logger
                   "collection of all databases" Sample.cancel Sample.handle
                   Sample.world = Some (g, w) ∧ g_pc g = Returned)
    as (g & w & Hex & Hr).
  { eexists _, _. split; reflexivity. }
  destruct (H _ _ _ Hex Hr) as (g1 & w1 & tr & g2 & w2 & Hs & Hex' & Hlt).
  apply returned_step in Hs as (_ & Hr1 & _ & _ & _); [|done].
  apply returned_final in Hex' as (_ & _ & _ & ?); [lia|done].
Qed.

(** C9 does not hold as stated.  After a reload the first generation is
    retired, and the connection it opened to [alpha] (handle 1) has not been
    closed. *)
Lemma retired_generation_left_open :
  ¬ closes_retired_generations Sample.daemon_flags Sample.world.
Proof.
  intros H.
  destruct (@exec Sample.externals Sample.reload
              (boot Sample.daemon_flags Sample.world)) as [d|] eqn:He.
  - assert (replaced_connections <$> @exec Sample.externals Sample.reload
                (boot Sample.daemon_flags Sample.world) = Some [1; 3]) as Hr
      by (vm_compute; reflexivity).
    assert ((λ d, w_closed (d_world d)) <$> @exec Sample.externals Sample.reload
                (boot Sample.daemon_flags Sample.world) = Some []) as Hc
      by (vm_compute; reflexivity).
    rewrite He in Hr, Hc. injection Hr as Hr. injection Hc as Hc.
    destruct (elem_of_replaced_connections 1 d) as (i & h & database & Hi & Hret & Hin & Hdb).
    { rewrite Hr. apply list_elem_of_here. }
    pose proof (H _ _ He i h database 1 Hi Hret Hin Hdb) as Hclosed.
    rewrite Hc in Hclosed. by apply elem_of_nil in Hclosed.
  - apply (f_equal (fmap observe)) in He. vm_compute in He. discriminate He.
Qed.

(** * Further properties *)

Section schedule_more.
Context `{X : Externals} {R C : Type}.
Context (group : Group) (runner : Runner R C) (logger : Logger) (logName : string).

Lemma occurrences_cons e e' tr :
  occurrences e (e' :: tr) = (if decide (e' = e) then 1 else 0) + occurrences e tr.
Proof.
  unfold occurrences. destruct (decide (e' = e)) as [->|Hne].
  - by rewrite filter_cons_True.
  - by rewrite filter_cons_False.
Qed.

Lemma loop_step_counts e (g g' : Goroutine R C) w w' fires timers nexts :
  loop_step group runner logger logName e g w = Some (g', w') →
  counts_agree (g_pc g) fires timers nexts →
  counts_agree (g_pc g')
    ((if decide (e = EvFire) then 1 else 0) + fires)
    ((if decide (e = EvTimer) then 1 else 0) + timers)
    ((if decide (e = EvNext) then 1 else 0) + nexts).
Proof.
  unfold loop_step, counts_agree.
  destruct e, (g_pc g) as [|[]|r| |]; try done; simpl.
  - destruct (interval group).
    + unfold_monad. destruct (cronexpr_delay _ _). intros [= <- <-]. simpl. lia.
    + intros [= <- <-]. simpl. lia.
  - intros [= <- <-]. simpl. lia.
  - intros [= <- <-]. simpl. lia.
  - destruct (r_step runner r (g_closure g) w) as [[o c] w1].
    intros [= <- <-]. simpl. destruct o; lia.
  - destruct (g_senders g); [done|]. intros [= <- <-]. simpl. lia.
  - destruct (g_senders g); [done|]. intros [= <- <-]. simpl. lia.
  - intros [= <- <-]. simpl. lia.
  - intros [= <- <-]. simpl. lia.
  - intros [= <- <-]. simpl. lia.
  - intros [= <- <-]. simpl. lia.
  - intros [= <- <-]. simpl. lia.
  - intros [= <- <-]. simpl. lia.
Qed.

Lemma loop_exec_counts tr : ∀ (g g' : Goroutine R C) w w' fires timers nexts,
  loop_exec group runner logger logName tr g w = Some (g', w') →
  counts_agree (g_pc g) fires timers nexts →
  counts_agree (g_pc g')
    (occurrences EvFire tr + fires) (occurrences EvTimer tr + timers)
    (occurrences EvNext tr + nexts).
Proof.
  induction tr as [|e tr IH]; intros g g' w w' fires timers nexts; simpl.
  - by intros [= <- <-].
  - destruct (loop_step _ _ _ _ e g w) as [[g1 w1]|] eqn:Hs; [|done].
    intros Hex Hc. rewrite !occurrences_cons.
    pose proof (loop_step_counts _ _ _ _ _ _ _ _ Hs Hc) as Hc1.
    pose proof (IH _ _ _ _ _ _ _ Hex Hc1) as Hc2.
    by replace (((if decide (e = EvFire) then 1 else 0) + occurrences EvFire tr) + fires)
      with (occurrences EvFire tr + ((if decide (e = EvFire) then 1 else 0) + fires)) by lia;
    replace (((if decide (e = EvTimer) then 1 else 0) + occurrences EvTimer tr) + timers)
      with (occurrences EvTimer tr + ((if decide (e = EvTimer) then 1 else 0) + timers)) by lia;
    replace (((if decide (e = EvNext) then 1 else 0) + occurrences EvNext tr) + nexts)
      with (occurrences EvNext tr + ((if decide (e = EvNext) then 1 else 0) + nexts)) by lia.
Qed.

(** X1.  In every run of a handle from [Schedule]: the runner is entered at
    most once per expiry of the timer, the timer expires at most once per
    pass through line 27, and line 27 is passed at most once more than the
    runner was entered; while the loop is inside the runner or back at line
    27, the three numbers are equal. *)
Theorem one_fire_per_timer_per_delay tr closure (g : Goroutine R C) w w' :
  loop_exec group runner logger logName tr (Schedule closure) w = Some (g, w') →
  occurrences EvFire tr ≤ occurrences EvTimer tr ∧
  occurrences EvTimer tr ≤ occurrences EvNext tr ∧
  occurrences EvNext tr ≤ S (occurrences EvFire tr) ∧
  ((∃ r, g_pc g = InRunner r) ∨ g_pc g = AtNext →
   occurrences EvNext tr = occurrences EvFire tr).
Proof.
  intros Hex.
  pose proof (loop_exec_counts tr _ _ _ _ 0 0 0 Hex) as Hc.
  rewrite !Nat.add_0_r in Hc. specialize (Hc (conj eq_refl eq_refl)).
  unfold counts_agree in Hc.
  destruct (g_pc g) as [|[]|r| |]; (split_and!; [lia..|]);
    intros [[r' ?]| ?]; simplify_eq; lia.
Qed.

Lemma nil_interval_step e (g g' : Goroutine R C) w w' :
  interval group = None →
  g_pc g = AtNext ∨ g_pc g = Panicked →
  loop_step group runner logger logName e g w = Some (g', w') →
  (g_pc g' = AtNext ∨ g_pc g' = Panicked) ∧ g_closure g' = g_closure g ∧ w' = w ∧
  (e = EvNext → g_pc g' = Panicked).
Proof.
  unfold loop_step. intros Hn [-> | ->]; rewrite ?Hn;
    destruct e; intros [= <- <-]; simpl; split_and!; auto; done.
Qed.

(** X2.  A handle scheduled on a group whose expression is nil never runs
    the task: its first pass through line 27 panics, and until then neither
    the closure nor the world has changed. *)
Theorem nil_interval_panics tr closure (g : Goroutine R C) w w' :
  interval group = None →
  loop_exec group runner logger logName tr (Schedule closure) w = Some (g, w') →
  (g_pc g = AtNext ∨ g_pc g = Panicked) ∧ g_closure g = closure ∧ w' = w ∧
  (EvNext ∈ tr → g_pc g = Panicked).
Proof.
  intros Hn.
  assert (∀ tr (g0 g : Goroutine R C) w w',
    g_pc g0 = AtNext ∨ g_pc g0 = Panicked →
    loop_exec group runner logger logName tr g0 w = Some (g, w') →
    (g_pc g = AtNext ∨ g_pc g = Panicked) ∧ g_closure g = g_closure g0 ∧ w' = w ∧
    (g_pc g0 = Panicked ∨ EvNext ∈ tr → g_pc g = Panicked)) as Hgen.
  { clear tr g w w'. induction tr as [|e tr IH]; intros g0 g w w' Hpc; simpl.
    - intros [= <- <-]. split_and!; [done..|]. intros [?|Hin]; [done|].
      by apply elem_of_nil in Hin.
    - destruct (loop_step _ _ _ _ e g0 w) as [[g1 w1]|] eqn:Hs; [|done].
      intros Hex.
      assert (g_pc g0 = Panicked → g_pc g1 = Panicked) as Hstay.
      { intros Hp. unfold loop_step in Hs. rewrite Hp in Hs.
        destruct e; by simplify_eq/=. }
      apply nil_interval_step in Hs as (Hpc1 & Hc1 & -> & Hnext); [|done..].
      apply IH in Hex as (Hpc' & Hc' & -> & Hp'); [|done].
      split_and!; [done|congruence|done|].
      intros [Hp|Hin]; apply Hp'; [left; auto|].
      apply elem_of_cons in Hin as [<-|Hin]; [left; auto|by right]. }
  intros Hex. apply Hgen in Hex as (? & ? & ? & Hp); [|by left].
  split_and!; [done..|]. intros Hin. apply Hp. by right.
Qed.
End schedule_more.

(** ** What the steps of the daemon leave alone *)

Section frame_facts.
Context `{X : Externals}.

Lemma connectToDb_collected cfg logger w :
  w_collected (connectToDb cfg logger w).2 = w_collected w.
Proof. unfold connectToDb. run_monad. Qed.

(** [connectToDb] opens at most one handle, and it is the one it returns,
    if it returns one. *)
Lemma connectToDb_opened cfg logger w :
  ∃ hs, w_opened (connectToDb cfg logger w).2 = w_opened w ++ hs ∧
        length hs ≤ 1 ∧
        ∀ db, (connectToDb cfg logger w).1.1 = Some db → hs = [db].
Proof.
  unfold connectToDb. unfold_monad. simpl.
  destruct (sql_Open _ _) as [[db|e] env]; simpl.
  - destruct (db_Ping _ _) as [[e|] env']; simpl; exists [db]; naive_solver.
  - exists []. rewrite (right_id_L [] (++)). naive_solver.
Qed.

Lemma establishConnection_collected cfg logger w :
  w_collected (establishConnection cfg logger w).2 = w_collected w.
Proof.
  unfold establishConnection. unfold mbind, M_bind, bind, mret, M_ret, ret.
  set (c1 := if String.eqb (DbSslMode cfg) "prefer" then _ else _).
  pose proof (connectToDb_collected c1 logger w) as H1.
  destruct (connectToDb c1 logger w) as [[conn1 err1] w1]. simpl in *.
  destruct err1 as [e|]; [|done].
  destruct (_ && _); [|done].
  pose proof (connectToDb_collected (set_DbSslMode "disable" c1) logger w1) as H2.
  destruct (connectToDb _ logger w1) as [[conn2 err2] w2]. simpl in *. congruence.
Qed.

Lemma establishEach_collected logger cfgs : ∀ w,
  w_collected (establishEach logger cfgs w).2 = w_collected w.
Proof.
  induction cfgs as [|cfg cfgs IH]; intros w; simpl; [done|].
  unfold mbind, M_bind, bind, mret, M_ret, ret.
  pose proof (establishConnection_collected cfg (WithPrefix (SectionName cfg) logger) w) as Hc.
  destruct (establishConnection cfg _ w) as [[database err] w1]. simpl in *.
  destruct err as [e|]; simpl.
  - specialize (IH (PrintError (WithPrefix (SectionName cfg) logger)
                      "Error: Failed to connect to database: %s" [e] w1).2).
    destruct (establishEach logger cfgs _) as [os w2]. simpl in *. by rewrite IH.
  - specialize (IH w1).
    destruct (establishEach logger cfgs w1) as [os w2]. simpl in *. congruence.
Qed.

(** Every target of a generation has a connection. *)
Lemma generation_connected logger cfgs w :
  Forall (λ database, is_Some (connection database))
    (generation_of (establishEach logger cfgs w).1).
Proof.
  revert w. induction cfgs as [|cfg cfgs IH]; intros w; simpl.
  - constructor.
  - unfold mbind, M_bind, bind, mret, M_ret, ret.
    pose proof (establishConnection_record cfg (WithPrefix (SectionName cfg) logger) w)
      as [_ Hc].
    destruct (establishConnection cfg _ w) as [[database err] w1]. simpl in *.
    destruct err as [e|]; simpl.
    + specialize (IH (PrintError (WithPrefix (SectionName cfg) logger)
                        "Error: Failed to connect to database: %s" [e] w1).2).
      destruct (establishEach logger cfgs _) as [os w2]. simpl in *.
      unfold generation_of in *. rewrite filter_cons_False; [done|]. simpl. congruence.
    + specialize (IH w1).
      destruct (establishEach logger cfgs w1) as [os w2]. simpl in *.
      unfold generation_of in *. rewrite filter_cons_True; [|done]. simpl.
      constructor; [by apply Hc|done].
Qed.

Lemma collectStatistics_attempts cfg db submit logger w :
  w_attempts (collectStatistics cfg db submit logger w).2 = w_attempts w ∧
  w_opened (collectStatistics cfg db submit logger w).2 = w_opened w.
Proof. unfold collectStatistics. run_monad. Qed.

Lemma collectAllDatabases_attempts databases submit logger : ∀ w,
  w_attempts (collectAllDatabases databases submit logger w).2 = w_attempts w ∧
  w_opened (collectAllDatabases databases submit logger w).2 = w_opened w.
Proof.
  induction databases as [|d ds IH]; intros w; simpl; [done|].
  unfold mbind, M_bind, bind.
  pose proof (collectStatistics_attempts (config d) (connection d) submit
                (WithPrefix (SectionName (config d)) logger) w) as [Ha Ho].
  destruct (collectStatistics _ _ _ _ w) as [err w1]. simpl in *.
  destruct err as [e|]; simpl.
  - destruct (IH (PrintError (WithPrefix (SectionName (config d)) logger) "%s" [e] w1).2)
      as [IHa IHo].
    simpl in *. split; congruence.
  - destruct (IH w1) as [IHa IHo]. simpl in *. split; congruence.
Qed.
End frame_facts.

(** ** Further invariants of the daemon *)

Section daemon_more.
Context `{X : Externals}.

Lemma collected_with_connection_refl w : collected_with_connection w w.
Proof. exists []. by rewrite (right_id_L [] (++)). Qed.

Lemma collected_with_connection_trans w0 w1 w2 :
  collected_with_connection w0 w1 → collected_with_connection w1 w2 →
  collected_with_connection w0 w2.
Proof.
  intros (l1 & H1 & F1) (l2 & H2 & F2). exists (l1 ++ l2).
  split; [by rewrite H2, H1, (assoc_L (++))|]. by apply Forall_app.
Qed.

Lemma collected_with_connection_same w0 w1 w2 :
  collected_with_connection w0 w1 → w_collected w2 = w_collected w1 →
  collected_with_connection w0 w2.
Proof. intros (l1 & H1 & F1) Heq. exists l1. by rewrite Heq. Qed.

Lemma collectAllDatabases_connected databases submit logger w :
  Forall connected databases →
  collected_with_connection w (collectAllDatabases databases submit logger w).2.
Proof.
  intros Hall. exists ((λ d, (config d, connection d)) <$> databases).
  split; [apply collectAllDatabases_collected|].
  apply Forall_fmap. by eapply Forall_impl.
Qed.

Lemma main_start_frame flags d :
  let d' := main_start flags d in
  w_collected (d_world d') = w_collected (d_world d) ∧
  w_attempts (d_world d') = w_attempts (d_world d) ∧
  w_opened (d_world d') = w_opened (d_world d) ∧
  (d_main d' = MRun →
   d_testRun d' = f_dry_run flags || f_test flags ∧
   d_submitCollectedData d' = negb (f_dry_run flags)).
Proof.
  unfold main_start. unfold_monad.
  repeat (case_match; simplify_eq/=); simpl; split_and!; try done;
    destruct (f_dry_run flags), (f_test flags); by simplify_eq/=.
Qed.

(** What [run] returns and does, in terms of the outcomes per target. *)
Lemma run_spec wg testRun submit logger file w :
  let r := run wg testRun submit logger file w in
  collected_with_connection w r.2 ∧
  ∀ h, r.1 = Some h →
    h_group h = stats_group ∧ h_loop h = Schedule wg ∧ Forall connected (h_databases h).
Proof.
  unfold run, stats_group.
  destruct (ReadSchedulerGroups DefaultConfig) as [groups [err|]]; simpl.
  { split; [|done]. eapply collected_with_connection_same;
      [apply collected_with_connection_refl|done]. }
  unfold mbind, M_bind, bind, mret, M_ret, ret, ext.
  destruct (config_Read file (w_env w)) as [[cfgs|err] env]; simpl.
  2:{ split; [|done]. eapply collected_with_connection_same;
      [apply collected_with_connection_refl|done]. }
  rewrite establishAll_each. simpl.
  set (w1 := {| w_env := env; w_log := w_log w; w_attempts := w_attempts w;
                w_collected := w_collected w; w_opened := w_opened w;
                w_closed := w_closed w |}).
  pose proof (generation_connected logger cfgs w1) as Hgen.
  pose proof (establishEach_collected logger cfgs w1) as Hcol.
  destruct (establishEach logger cfgs w1) as [os w2]. simpl in *.
  assert (collected_with_connection w w2) as Hw2.
  { eapply collected_with_connection_same; [apply collected_with_connection_refl|done]. }
  destruct testRun; simpl.
  - pose proof (collectAllDatabases_connected (generation_of os) submit logger w2 Hgen) as Hc.
    destruct (collectAllDatabases _ _ _ _) as [[] w3]. simpl in *.
    split; [by eapply collected_with_connection_trans|done].
  - split; [done|]. by intros h [= <-].
Qed.

Lemma loop_step_handle_ok (h : Handle) logName e senders g' w w' :
  handle_ok h →
  loop_step (h_group h) (h_runner h) (h_logger h) logName e
    {| g_pc := g_pc (h_loop h); g_closure := g_closure (h_loop h);
       g_senders := senders |} w = Some (g', w') →
  handle_ok (set_loop g' h) ∧ collected_with_connection w w'.
Proof.
  intros (Hg & Hc & Hp & Hdb). unfold handle_ok, loop_step. simpl.
  destruct e, (g_pc (h_loop h)) as [|[]|r| |] eqn:Hpc; try done;
    try (intros [= <- <-]; simpl;
         split; [by split_and!|apply collected_with_connection_refl]).
  - destruct (interval (h_group h)) eqn:Hi.
    + unfold_monad. destruct (cronexpr_delay _ _). intros [= <- <-]. simpl.
      split; [by split_and!|]. eapply collected_with_connection_same;
        [apply collected_with_connection_refl|done].
    + intros [= <- <-]. simpl. split; [by split_and!|apply collected_with_connection_refl].
  - destruct r; simpl in *.
    + intros [= <- <-]. simpl. rewrite Hc.
      split; [by split_and!|apply collected_with_connection_refl].
    + unfold mbind, M_bind, bind, mret, M_ret, ret.
      pose proof (collectAllDatabases_connected (h_databases h) (h_submit h)
                    (h_logger h) w Hdb) as Hcol.
      destruct (collectAllDatabases _ _ _ _) as [[] w1]. intros [= <- <-]. simpl.
      split; [by split_and!|done].
    + rewrite Hc. simpl. intros [= <- <-]. simpl.
      split; [by split_and!|apply collected_with_connection_refl].
  - destruct senders; [done|]. intros [= <- <-]. simpl.
    split; [by split_and!|apply collected_with_connection_refl].
  - destruct senders; [done|]. intros [= <- <-]. simpl.
    split; [by split_and!|apply collected_with_connection_refl].
Qed.

Lemma step_daemon_ok w0 ev d d' :
  daemon_ok w0 d → step ev d = Some d' → daemon_ok w0 d'.
Proof.
  intros (Hhs & Hcr & Hwg & Hcol). destruct ev as [s|i e]; simpl.
  - unfold main_step. destruct (d_main d) eqn:Hm; try done.
    + intros [= <-]. destruct (main_start_spec flags d) as (Hh & [Hr|Hr] & Hw & _).
      all: destruct (main_start_frame flags d) as (Hc & _).
      all: unfold daemon_ok; rewrite Hh, Hr; split_and!; [done|done|lia|].
      all: by eapply collected_with_connection_same.
    + pose proof (run_spec (d_wg d) (d_testRun d) (d_submitCollectedData d)
                    (d_logger d) (d_configFilename d) (d_world d)) as [Hc Hh].
      destruct (run _ _ _ _ _ _) as [[h|] w]; intros [= <-]; simpl in *.
      * destruct (Hh h eq_refl) as (Hg & Hl & Hdb).
        split_and!; [|done|done|by eapply collected_with_connection_trans].
        apply Forall_app. split; [done|]. constructor; [|done].
        unfold handle_ok. rewrite Hl, Hwg. simpl. by split_and!.
      * split_and!; [done|done|done|by eapply collected_with_connection_trans].
    + intros [= <-]. by split_and!.
    + unfold_monad. destruct s0; intros [= <-]; simpl; split_and!; try done;
        by eapply collected_with_connection_same.
    + destruct (wg_Wait_ready _); intros [= <-]. by split_and!.
  - intros (Hal & _ & h & g' & w & Hi & Hl & Hh' & Hw & Hwg' & Hm)%loop_event_step_Some.
    pose proof (Forall_lookup_1 _ _ _ _ Hhs Hi) as Hok.
    apply loop_step_handle_ok in Hl as [Hok' Hcol']; [|done].
    unfold daemon_ok. rewrite Hh', Hw, Hwg', Hm. split_and!.
    + apply Forall_insert; done.
    + destruct Hok' as (Hg & _ & Hp & _). simpl in *.
      unfold main_after, alive in *.
      destruct (g_pc g') eqn:Hpc, e, (d_main d); try done;
        intros _; rewrite <-Hg; by apply Hp.
    + done.
    + by eapply collected_with_connection_trans.
Qed.

Lemma reachable_daemon_ok flags w tr d :
  exec tr (boot flags w) = Some d → daemon_ok w d.
Proof.
  apply exec_invariant; [intros ev d0 d1; apply step_daemon_ok|].
  split_and!; [constructor|done|done|apply collected_with_connection_refl].
Qed.
End daemon_more.

Section daemon_extras.
Context `{X : Externals}.

(** X3.  In every state the daemon can reach, the counter that a scheduled
    task has captured reads 1 between its [wg.Add(1)] and its [wg.Done()] and
    0 elsewhere; so [wg.Done()] finds 1 and never panics. *)
Theorem task_counter_tracks_the_pass flags w tr d i h :
  exec tr (boot flags w) = Some d →
  d_handles d !! i = Some h →
  g_closure (h_loop h) = counter_of (g_pc (h_loop h)) ∧
  (g_pc (h_loop h) = InRunner RDone → wg_Done (g_closure (h_loop h)) = Some 0).
Proof.
  intros (Hhs & _)%reachable_daemon_ok Hi.
  destruct (Forall_lookup_1 _ _ _ _ Hhs Hi) as (_ & Hc & _).
  split; [done|]. intros Hpc. by rewrite Hc, Hpc.
Qed.

(** X4.  The daemon crashes only when the scheduler configuration gives no
    resolved group named [stats]; and then the first pass of a loop through
    line 27 does crash it. *)
Theorem crash_only_without_stats_group flags w tr d :
  exec tr (boot flags w) = Some d →
  (d_main d = MCrashed → interval stats_group = None) ∧
  (interval stats_group = None →
   ∀ i h, d_handles d !! i = Some h → g_pc (h_loop h) = AtNext → alive d = true →
     ∃ d', step (ELoop i EvNext) d = Some d' ∧ d_main d' = MCrashed).
Proof.
  intros (Hhs & Hcr & _)%reachable_daemon_ok. split; [done|].
  intros Hnil i h Hi Hpc Hal.
  destruct (Forall_lookup_1 _ _ _ _ Hhs Hi) as (Hg & _).
  simpl. unfold loop_event_step. rewrite Hal, Hi. simpl.
  unfold loop_step. simpl. rewrite Hpc, Hg, Hnil. by eexists.
Qed.

(** X8.  Whatever the daemon does, [collectStatistics] is only ever called
    with a connection: every call made since the start has one. *)
Theorem collection_only_with_a_connection flags w tr d :
  exec tr (boot flags w) = Some d →
  ∃ calls, w_collected (d_world d) = w_collected w ++ calls ∧
           Forall (λ call, is_Some call.2) calls.
Proof. by intros (_ & _ & _ & Hc)%reachable_daemon_ok. Qed.

Lemma step_one_shot ev d d' :
  one_shot_state d → step ev d = Some d' →
  one_shot_state d' ∧ main_steps_left d' < main_steps_left d ∧ is_main_event ev.
Proof.
  intros [Hh Hm]. destruct ev as [s|i e]; simpl.
  - unfold main_step, one_shot_state, main_steps_left.
    destruct (d_main d) eqn:Hmd; try done.
    + intros [= <-]. destruct (main_start_spec flags d) as (Hh' & [Hr|Hr] & _).
      all: destruct (main_start_frame flags d) as (_ & _ & _ & Ht).
      all: rewrite Hh', Hr in *; split_and!; try done; try lia.
      destruct (Ht eq_refl) as [-> _]. done.
    + pose proof (run_handle (d_wg d) (d_testRun d) (d_submitCollectedData d)
                    (d_logger d) (d_configFilename d) (d_world d)) as Hrun.
      destruct (run _ _ _ _ _ _) as [[h|] w]; intros [= <-]; simpl in *.
      * destruct (Hrun h eq_refl) as (_ & _ & ?). congruence.
      * split_and!; [done|done|lia|done].
  - unfold loop_event_step. rewrite Hh. destruct (alive d); simpl; [|done].
    by destruct e.
Qed.

(** X5.  With [--test] or [--dry-run] the process never starts a handle
    and never waits for a signal: only [main] takes steps, at most two of
    them, and it is at its start, about to call [run], or gone. *)
Theorem one_shot_never_schedules flags w tr d :
  one_shot flags = true →
  exec tr (boot flags w) = Some d →
  d_handles d = [] ∧
  (d_main d = MStart flags ∨ d_main d = MRun ∨ d_main d = MExited) ∧
  length tr ≤ 2 ∧
  Forall is_main_event tr.
Proof.
  intros Hone.
  assert (∀ tr d0 d, one_shot_state d0 → exec tr d0 = Some d →
            one_shot_state d ∧ length tr + main_steps_left d ≤ main_steps_left d0 ∧
            Forall is_main_event tr ∧
            (d_main d = d_main d0 ∨ d_main d = MRun ∨ d_main d = MExited)) as Hgen.
  { clear. induction tr as [|ev tr IH]; intros d0 d H0; simpl.
    - intros [= <-]. split_and!; [done|lia|constructor|by left].
    - destruct (step ev d0) as [d1|] eqn:Hs; [|done]. intros Hex.
      destruct (step_one_shot _ _ _ H0 Hs) as (H1 & Hlt & Hev).
      destruct (IH _ _ H1 Hex) as (Hd & Hlen & Hall & Hm).
      split_and!; [done|lia|by constructor|].
      destruct H1 as [_ H1]. destruct Hm as [Hm|Hm]; [|by right].
      rewrite Hm. unfold main_steps_left in Hlt.
      destruct (d_main d1); try done; auto.
      destruct (d_main d0); simpl in Hlt; lia. }
  intros Hex. destruct (Hgen tr (boot flags w) d) as ([Hh _] & Hlen & Hall & Hm);
    [by split|done|].
  simpl in *. unfold main_steps_left in Hlen. simpl in Hlen.
  split_and!; [done|done|lia|done].
Qed.

Lemma loop_step_attempts (h : Handle) logName e g w g' w' :
  loop_step (h_group h) (h_runner h) (h_logger h) logName e g w = Some (g', w') →
  w_attempts w' = w_attempts w ∧ w_opened w' = w_opened w.
Proof.
  unfold loop_step.
  destruct e, (g_pc g) as [|[]|r| |]; try done; try (by intros [= <- <-]).
  - destruct (interval _); [|by intros [= <- <-]].
    unfold_monad. destruct (cronexpr_delay _ _). by intros [= <- <-].
  - destruct r; simpl.
    + by intros [= <- <-].
    + unfold mbind, M_bind, bind, mret, M_ret, ret.
      pose proof (collectAllDatabases_attempts (h_databases h) (h_submit h)
                    (h_logger h) w) as Hc.
      destruct (collectAllDatabases _ _ _ _) as [[] w1]. by intros [= <- <-].
    + destruct (wg_Done _); by intros [= <- <-].
  - destruct (g_senders g); [done|]. by intros [= <- <-].
  - destruct (g_senders g); [done|]. by intros [= <- <-].
Qed.

(** X7.  A step of the daemon that calls [connectToDb] or opens a handle
    is [main]'s call of [run]: a scheduled pass works with the connections
    of its generation and makes none. *)
Theorem connections_are_made_only_by_run ev d d' :
  step ev d = Some d' →
  w_attempts (d_world d') ≠ w_attempts (d_world d) ∨
  w_opened (d_world d') ≠ w_opened (d_world d) →
  d_main d = MRun ∧ is_main_event ev.
Proof.
  destruct ev as [s|i e]; simpl.
  - unfold main_step. destruct (d_main d) eqn:Hm; try done.
    + intros [= <-]. destruct (main_start_frame flags d) as (_ & Ha & Ho & _).
      intros [?|?]; done.
    + intros [= <-]. simpl. intros [?|?]; done.
    + unfold_monad. destruct s0; intros [= <-]; simpl; intros [?|?]; done.
    + destruct (wg_Wait_ready _); intros [= <-]; simpl; intros [?|?]; done.
  - intros (_ & _ & h & g' & w & _ & Hl & _ & <- & _)%loop_event_step_Some.
    apply loop_step_attempts in Hl as [Ha Ho]. intros [?|?]; done.
Qed.
End daemon_extras.

Section shutdown_facts.
Context `{X : Externals}.

Lemma loop_step_returned {R C} group (runner : Runner R C) logger logName e g w g' w' :
  loop_step group runner logger logName e g w = Some (g', w') →
  g_pc g' = Returned →
  g_pc g = Returned ∨ (e = EvStop ∧ 0 < g_senders g).
Proof.
  unfold loop_step.
  destruct e, (g_pc g) as [|[]|r| |]; try done;
    try (intros [= <- <-]; simpl; auto; done).
  - destruct (interval group); [|by intros [= <- <-]].
    destruct (_ ← _; _) as [? ?]. by intros [= <- <-].
  - destruct (r_step _ _ _ _) as [[[]?]?]; by intros [= <- <-].
  - destruct (g_senders g); [done|]. intros _ _. right. split; [done|lia].
  - destruct (g_senders g); [done|]. intros _ _. right. split; [done|lia].
Qed.

Lemma step_current_running ev d d' :
  generations_ok d →
  (waiting_or_stopping d → current_running d) →
  step ev d = Some d' →
  waiting_or_stopping d' → current_running d'.
Proof.
  intros Hok Hrun. unfold waiting_or_stopping in *. destruct ev as [s|i e]; simpl.
  - unfold main_step. destruct (d_main d) eqn:Hm; try done.
    + intros [= <-]. by destruct (main_start_spec flags d) as (_ & [->| ->] & _).
    + pose proof (run_handle (d_wg d) (d_testRun d) (d_submitCollectedData d)
                    (d_logger d) (d_configFilename d) (d_world d)) as Hh.
      destruct (run _ _ _ _ _ _) as [[h|] w]; intros [= <-]; simpl; [|done].
      intros _. exists (length (d_handles d)), h.
      destruct (Hh h eq_refl) as (Hpc & _). rewrite Hpc. simpl.
      split_and!; [|by apply list_lookup_middle|done|done].
      rewrite length_app. simpl. lia.
    + intros [= <-]. simpl. intros _. by apply Hrun.
    + unfold_monad. by destruct s0; intros [= <-].
    + by destruct (wg_Wait_ready _); intros [= <-].
  - intros Hs. pose proof Hs as Hs'.
    apply loop_event_step_Some in Hs'
      as (Hal & Hne & h & g' & w & Hi & Hl & Hhs & _ & _ & Hm).
    rewrite Hm. intros Hmain.
    assert (g_pc g' ≠ Panicked) as Hnp.
    { intros Hp. rewrite Hp in Hmain. done. }
    assert (d_main d' = d_main d) as Hsame.
    { rewrite Hm. unfold main_after in *.
      destruct (g_pc g'), e, (d_main d); done. }
    assert (¬ returned h) as Hnr.
    { intros Hr. by rewrite (returned_no_event i e d h) in Hs. }
    assert (g_pc g' ≠ Returned) as Hnret.
    { intros Hr.
      destruct (loop_step_returned _ _ _ _ _ _ _ _ _ Hl Hr) as [Hret|[-> Hsend]];
        [by destruct Hnr|].
      simpl in Hsend. unfold senders_of in Hsend. unfold main_after in Hmain.
      rewrite Hr in Hmain. destruct (d_main d); try done.
      simpl in Hsend. lia. }
    pose proof (generations_ok_old d Hok) as Hold.
    assert (S i = length (d_handles d)) as Hlast.
    { apply lookup_lt_Some in Hi as Hlt.
      destruct (decide (S i = length (d_handles d))); [done|].
      destruct Hnr. apply (Hold i h Hi). lia. }
    exists i, (set_loop g' h). rewrite Hhs, length_insert.
    split_and!; [done| |done|done].
    apply list_lookup_insert_eq. lia.
Qed.

Lemma reachable_current_running flags w tr d :
  exec tr (boot flags w) = Some d →
  waiting_or_stopping d → current_running d.
Proof.
  intros Hex.
  enough (generations_ok d ∧ (waiting_or_stopping d → current_running d)) by tauto.
  revert Hex. apply (exec_invariant
    (λ d, generations_ok d ∧ (waiting_or_stopping d → current_running d))).
  - intros ev d0 d1 [Hok Hrun] Hs. split.
    + by eapply step_generations_ok.
    + by eapply step_current_running.
  - split; [apply boot_generations_ok|done].
Qed.

Lemma exec_app tr1 tr2 d :
  exec (tr1 ++ tr2) d = exec tr1 d ≫= exec tr2.
Proof.
  revert d. induction tr1 as [|ev tr1 IH]; intros d; simpl; [done|].
  destruct (step ev d); simpl; [apply IH|done].
Qed.

Lemma loop_event_step_intro i e d h g' w :
  alive d = true → e ≠ EvSignal →
  d_handles d !! i = Some h →
  loop_step (h_group h) (h_runner h) (h_logger h) "collection of all databases" e
    {| g_pc := g_pc (h_loop h); g_closure := g_closure (h_loop h);
       g_senders := senders_of i d |} (d_world d) = Some (g', w) →
  loop_event_step i e d
  = Some (set_main (main_after (g_pc g') e (d_main d)) w
            (set_handles (<[i := set_loop g' h]> (d_handles d)) d)).
Proof.
  intros Hal Hne Hi Hl. unfold loop_event_step. rewrite Hal, Hi, Hl. simpl.
  by destruct e.
Qed.

(** Once [main] is sending on [stop], the loop can always be brought to
    take the signal. *)
Lemma stopping_progress s n : ∀ d,
  stopping s n d →
  ∃ tr d', exec tr d = Some d' ∧ d_wg d' = 0 ∧
           (d_main d' = MAfterStop s ∨ d_main d' = MCrashed).
Proof.
  induction n as [n IH] using lt_wf_ind.
  intros d (Hm & Hwg & i & h & Hlast & Hi & Hok & Hnr & Hnp & Hn).
  assert (alive d = true) as Hal by (unfold alive; by rewrite Hm).
  assert (senders_of i d = 1) as Hsend.
  { unfold senders_of, is_current. rewrite Hm. by rewrite bool_decide_eq_true_2. }
  assert (∀ e g' w,
    e ≠ EvSignal →
    loop_step (h_group h) (h_runner h) (h_logger h) "collection of all databases" e
      {| g_pc := g_pc (h_loop h); g_closure := g_closure (h_loop h);
         g_senders := senders_of i d |} (d_world d) = Some (g', w) →
    g_pc g' ≠ Returned → steps_to_select (g_pc g') < steps_to_select (g_pc (h_loop h)) →
    ∃ tr d', exec tr d = Some d' ∧ d_wg d' = 0 ∧
             (d_main d' = MAfterStop s ∨ d_main d' = MCrashed)) as Hstep.
  { intros e g' w He Hl Hnret Hlt.
    pose proof (loop_event_step_intro i e d h g' w Hal He Hi Hl) as Hs.
    destruct (loop_step_handle_ok h _ e _ g' _ w Hok Hl) as [Hok' _].
    assert (g_pc g' = Panicked ∨ g_pc g' ≠ Panicked) as [Hp|Hnp']
      by (destruct (g_pc g'); auto).
    - exists [ELoop i e], (set_main (main_after (g_pc g') e (d_main d)) w
                   (set_handles (<[i := set_loop g' h]> (d_handles d)) d)).
      simpl. rewrite Hs. split_and!; [done|done|]. right. simpl. by rewrite Hp.
    - destruct (IH (steps_to_select (g_pc g')) ltac:(lia)
                  (set_main (main_after (g_pc g') e (d_main d)) w
                     (set_handles (<[i := set_loop g' h]> (d_handles d)) d)))
        as (tr & d' & Hex & Hwg' & Hd').
      { unfold stopping. simpl. split_and!; [|done|].
        - rewrite Hm. unfold main_after.
          assert (e ≠ EvStop) as HeS.
          { intros ->. apply Hnret. revert Hl. unfold loop_step. simpl.
            destruct (g_pc (h_loop h)); try done.
            rewrite Hsend. by intros [= <- <-]. }
          destruct (g_pc g'), e; done.
        - exists i, (set_loop g' h). rewrite length_insert.
          split_and!; [done| |done|done|done|done].
          apply list_lookup_insert_eq. lia. }
      exists (ELoop i e :: tr), d'. simpl. rewrite Hs. done. }
  destruct Hok as (Hg & Hc & Hp & Hdb).
  destruct (g_pc (h_loop h)) as [|fired|r| |] eqn:Hpc; try done.
  - (* at line 27 *)
    destruct (interval (h_group h)) as [expr|] eqn:Hint.
    + destruct ((delay ← ext (cronexpr_delay expr);
                 PrintVerbose (h_logger h) "Scheduled next run for %s in %+v"
                   ["collection of all databases"; delay]) (d_world d))
        as [u w] eqn:Hw.
      apply (Hstep EvNext
               {| g_pc := AtSelect false; g_closure := g_closure (h_loop h);
                  g_senders := senders_of i d |} w); [done| |done|simpl; lia].
      unfold loop_step. simpl. rewrite Hint, Hw. reflexivity.
    + apply (Hstep EvNext
               {| g_pc := Panicked; g_closure := g_closure (h_loop h);
                  g_senders := senders_of i d |} (d_world d)); [done| |done|simpl; lia].
      unfold loop_step. simpl. by rewrite Hint.
  - (* in the select *)
    pose proof (loop_event_step_intro i EvStop d h
      {| g_pc := Returned; g_closure := g_closure (h_loop h); g_senders := 0 |}
      (d_world d) Hal ltac:(done) Hi) as Hs.
    eexists [ELoop i EvStop], _. simpl. rewrite Hs.
    + split_and!; [done|done|]. left. simpl. by rewrite Hm.
    + unfold loop_step. simpl. by rewrite Hpc, Hsend.
  - (* inside the runner *)
    destruct r.
    + apply (Hstep EvRunner
               {| g_pc := InRunner RCollect; g_closure := wg_Add (g_closure (h_loop h));
                  g_senders := senders_of i d |} (d_world d)); [done| |done|simpl; lia].
      unfold loop_step. simpl. reflexivity.
    + destruct (collectAllDatabases (h_databases h) (h_submit h) (h_logger h) (d_world d))
        as [u w] eqn:Hw.
      apply (Hstep EvRunner
               {| g_pc := InRunner RDone; g_closure := g_closure (h_loop h);
                  g_senders := senders_of i d |} w); [done| |done|simpl; lia].
      unfold loop_step. simpl.
      unfold mbind, M_bind, bind, mret, M_ret, ret. rewrite Hw. reflexivity.
    + apply (Hstep EvRunner
               {| g_pc := AtNext; g_closure := 0;
                  g_senders := senders_of i d |} (d_world d)); [done| |done|simpl; lia].
      unfold loop_step. simpl. rewrite Hc. simpl. reflexivity.
Qed.

(** X6.  From every state in which [main] waits for a signal, and for
    every signal, there is a run in which the send on [stop] completes and
    the signal is honoured: SIGHUP leads to the next call of [run], the other
    signals to the exit (unless the loop panics on a nil expression). *)
Theorem a_signal_can_always_be_honoured flags w tr d s :
  exec tr (boot flags w) = Some d →
  d_main d = MSigs →
  ∃ tr' d', exec (EMain s :: tr') d = Some d' ∧ honoured s d'.
Proof.
  intros Hex Hm.
  destruct (reachable_current_running _ _ _ _ Hex) as (i & h & Hlast & Hi & Hnr & Hnp).
  { unfold waiting_or_stopping. by rewrite Hm. }
  destruct (reachable_daemon_ok _ _ _ _ Hex) as (Hhs & _ & Hwg & _).
  pose proof (Forall_lookup_1 _ _ _ _ Hhs Hi) as Hok.
  destruct (stopping_progress s (steps_to_select (g_pc (h_loop h)))
              (set_main (MStop s) (d_world d) d))
    as (tr1 & d1 & Hex1 & Hwg1 & Hd1).
  { unfold stopping. simpl. split_and!; [done..|]. by exists i, h. }
  assert (exec (EMain s :: tr1) d = Some d1) as Hex'.
  { simpl. unfold main_step. by rewrite Hm. }
  destruct Hd1 as [Hd1|Hd1]; [|exists tr1, d1; split; [done|by right]].
  destruct (decide (s = SIGHUP)) as [->|Hs].
  - exists (tr1 ++ [EMain SIGHUP]).
    change (EMain SIGHUP :: tr1 ++ [EMain SIGHUP])
      with ((EMain SIGHUP :: tr1) ++ [EMain SIGHUP]).
    rewrite exec_app, Hex'. simpl. unfold main_step. rewrite Hd1. unfold_monad.
    eexists. split; [done|]. by left.
  - exists (tr1 ++ [EMain s; EMain s]).
    change (EMain s :: tr1 ++ [EMain s; EMain s])
      with ((EMain s :: tr1) ++ [EMain s; EMain s]).
    rewrite exec_app, Hex'. simpl. unfold main_step at 1. rewrite Hd1. unfold_monad.
    destruct s; [| |done]; simpl; unfold main_step; simpl; rewrite Hwg1; simpl;
      (eexists; split; [done|by left]).
Qed.
End shutdown_facts.

(** ** Further properties of collection, connection and start-up *)

Section collector_extras.
Context `{X : Externals}.

Lemma collectStatistics_log cfg db submit logger w :
  match (collectStatistics cfg db submit logger w).1 with
  | None =>
      ∃ args,
        w_log (collectStatistics cfg db submit logger w).2
        = w_log w ++ [{| l_prefix := Prefix logger; l_level := LInfo;
                         l_format :=
                           if submit then "Submitted snapshot successfully"
                           else "Dry run - JSON data that would have been sent:"
                                  +:+ newline +:+ "%s";
                         l_args := args |}]
  | Some _ => w_log (collectStatistics cfg db submit logger w).2 = w_log w
  end.
Proof.
  unfold collectStatistics. unfold_monad. simpl.
  repeat (case_match; simpl in *; simplify_eq); simpl; try done; by eexists.
Qed.

(** X9.  [collectStatistics] logs exactly one line, at info level under
    its logger's prefix, when it returns no error (the line of a successful
    submission, or the dry-run line), and logs nothing when it returns an
    error. *)
Theorem collectStatistics_logs_success_only cfg db submit logger w :
  let '(err, w') := collectStatistics cfg db submit logger w in
  match err with
  | None =>
      ∃ args,
        w_log w'
        = w_log w ++ [{| l_prefix := Prefix logger; l_level := LInfo;
                         l_format :=
                           if submit then "Submitted snapshot successfully"
                           else "Dry run - JSON data that would have been sent:"
                                  +:+ newline +:+ "%s";
                         l_args := args |}]
  | Some _ => w_log w' = w_log w
  end.
Proof.
  pose proof (collectStatistics_log cfg db submit logger w) as H.
  by destruct (collectStatistics cfg db submit logger w) as [err w'].
Qed.


(** X12.  [establishConnection] opens at most two handles and closes none;
    the connection it returns, if any, is the last one opened.  A handle
    whose [Ping] failed is left open and is returned to no one. *)
Theorem establishConnection_leaves_handles_open cfg logger w :
  let '(database, err, w') := establishConnection cfg logger w in
  ∃ hs, w_opened w' = w_opened w ++ hs ∧ length hs ≤ 2 ∧
        w_closed w' = w_closed w ∧
        ∀ db, connection database = Some db → last hs = Some db.
Proof.
  pose proof (establishConnection_closed cfg logger w) as Hcl. revert Hcl.
  unfold establishConnection. unfold mbind, M_bind, bind, mret, M_ret, ret.
  set (c1 := if String.eqb (DbSslMode cfg) "prefer" then _ else _).
  destruct (connectToDb_opened c1 logger w) as (hs1 & Ho1 & Hl1 & Hr1).
  pose proof (connectToDb_result c1 logger w) as Hres1.
  destruct (connectToDb c1 logger w) as [[conn1 err1] w1]. simpl in *.
  destruct err1 as [e|].
  - destruct (_ && _).
    + destruct (connectToDb_opened (set_DbSslMode "disable" c1) logger w1)
        as (hs2 & Ho2 & Hl2 & Hr2).
      destruct (connectToDb _ logger w1) as [[conn2 err2] w2]. simpl in *.
      intros Hcl. exists (hs1 ++ hs2).
      split_and!; [by rewrite Ho2, Ho1, (assoc_L (++))|rewrite length_app; lia|done|].
      intros db ->. rewrite (Hr2 db eq_refl). by rewrite last_snoc.
    + simpl. intros Hcl. exists hs1. split_and!; [done|lia|done|].
      intros db Hdb. by destruct conn1.
  - simpl. intros Hcl. exists hs1. split_and!; [done|lia|done|].
    intros db ->. by rewrite (Hr1 db eq_refl).
Qed.

(** X14.  Without [testRun], [run] returns nil exactly when the scheduler
    groups or the configuration cannot be read, and then it has attempted no
    connection and collected nothing; otherwise it returns a handle, even
    when no target could be connected. *)
Theorem run_returns_nil_only_on_config_error wg submit logger file w :
  let '(stop, w') := run wg false submit logger file w in
  (stop = None ↔
   (ReadSchedulerGroups DefaultConfig).2 ≠ None ∨
   ∃ e, (config_Read file (w_env w)).1 = inr e) ∧
  (stop = None →
   w_attempts w' = w_attempts w ∧ w_opened w' = w_opened w ∧
   w_collected w' = w_collected w).
Proof.
  unfold run.
  destruct (ReadSchedulerGroups DefaultConfig) as [groups [err|]]; simpl.
  { unfold_monad. simpl. split; [|done]. split; [by left|done]. }
  unfold mbind, M_bind, bind, mret, M_ret, ret, ext.
  destruct (config_Read file (w_env w)) as [[cfgs|err] env]; simpl.
  - destruct (establishAll _ _ _ _) as [dbs w1]. split; [|done].
    split; [done|]. intros [?|[e ?]]; done.
  - unfold_monad. simpl. split; [|done]. split; [|done]. intros _. right. by eexists.
Qed.

Lemma exited_no_step d ev : d_main d = MExited → step ev d = None.
Proof.
  intros Hd. destruct ev as [s|i e]; simpl.
  - unfold main_step. by rewrite Hd.
  - unfold loop_event_step, alive. by rewrite Hd.
Qed.

(** X16.  When [user.Current] fails, or the pidfile that was asked for
    cannot be written, the process exits at its first step: [run] is never
    called, no connection is attempted and nothing is collected. *)
Theorem startup_failure_exits_before_run flags w tr d :
  ((∃ e, (user_Current (w_env w)).1 = inr e) ∨
   (f_pidfile flags ≠ EmptyString ∧
    ∃ e, (write_pidfile (f_pidfile flags) (user_Current (w_env w)).2).1 = Some e)) →
  exec tr (boot flags w) = Some d →
  (d_main d = MStart flags ∨ d_main d = MExited) ∧
  d_handles d = [] ∧
  w_attempts (d_world d) = w_attempts w ∧
  w_collected (d_world d) = w_collected w ∧
  length tr ≤ 1.
Proof.
  intros Hfail.
  assert (d_main (main_start flags (boot flags w)) = MExited) as Hexit.
  { unfold main_start. unfold_monad. simpl.
    destruct (user_Current (w_env w)) as [[home|e] env] eqn:Hu; simpl in *.
    - destruct Hfail as [[e ?]|[Hpid [e He]]]; [done|].
      destruct (String.eqb (f_pidfile flags) EmptyString) eqn:Heq.
      { by apply String.eqb_eq in Heq. }
      simpl. destruct (write_pidfile _ _) as [[e'|] env']; simpl in *; [|done].
      by destruct (f_dry_run flags), (f_test flags).
    - done. }
  destruct tr as [|ev tr]; simpl.
  { intros [= <-]. simpl. split_and!; [by left|done|done|done|lia]. }
  destruct ev as [s|i e]; simpl; [|by destruct e].
  unfold main_step. simpl.
  destruct tr as [|ev' tr]; simpl.
  - intros [= <-].
    destruct (main_start_spec flags (boot flags w)) as (Hh & _).
    destruct (main_start_frame flags (boot flags w)) as (Hc & Ha & _).
    split_and!; [by right|done|done|done|lia].
  - by rewrite exited_no_step.
Qed.
End collector_extras.

Section resolution_extras.
Context `{X : Externals} `{!ExternalsLaws X}.

Lemma resolve_error_source intervals todo : ∀ acc groups err,
  resolve intervals todo acc = (groups, Some err) →
  groups = ∅ ∧
  ∃ k g, (k, g) ∈ todo ∧
         cronexpr_Parse (default EmptyString (intervals !! IntervalName g)) = inr err.
Proof.
  induction todo as [|[k g] todo IH]; intros acc groups err; simpl; [done|].
  destruct (cronexpr_Parse _) as [expr|e] eqn:Hp.
  - intros (-> & k' & g' & Hin & Hp')%IH. split; [done|].
    exists k', g'. split; [by right|done].
  - intros [= <- <-]. split; [done|]. exists k, g. split; [by left|done].
Qed.

(** X11.  An error returned by [ReadSchedulerGroups] comes with no groups,
    and is either the error of [toml.Decode] or the error of [cronexpr.Parse]
    on the expression of one of the groups. *)
Theorem ReadSchedulerGroups_error_source configData groups err :
  ReadSchedulerGroups configData = (groups, Some err) →
  groups = ∅ ∧
  (toml_Decode configData = inr err ∨
   ∃ d k g,
     toml_Decode configData = inl d ∧
     Groups (decoded d) !! k = Some g ∧
     cronexpr_Parse (default EmptyString (Intervals (decoded d) !! IntervalName g))
     = inr err).
Proof.
  unfold ReadSchedulerGroups, resolveGroups.
  destruct (toml_Decode configData) as [d|e].
  - intros (-> & k & g & Hin & Hp)%resolve_error_source. split; [done|]. right.
    exists d, k, g. split_and!; [done| |done]. by apply range_order_elem_of.
  - intros [= <- <-]. split; [done|by left].
Qed.
End resolution_extras.

(** ** Submissions *)

Section submission_facts.
Context {X : Externals}.

Ltac run_recording :=
  unfold_monad; unfold posts; simpl;
  repeat (case_match; simpl in *; simplify_eq);
  unfold keep_posts in *;
  repeat (case_match; simpl in *; simplify_eq);
  simpl; try done.

Lemma connectToDb_posts cfg logger (w : @World (recording X)) :
  posts (connectToDb cfg logger w).2 = posts w.
Proof. unfold connectToDb. run_recording. Qed.

Lemma establishConnection_posts cfg logger (w : @World (recording X)) :
  posts (establishConnection cfg logger w).2 = posts w.
Proof.
  unfold establishConnection. unfold mbind, M_bind, bind, mret, M_ret, ret.
  set (c1 := if String.eqb (DbSslMode cfg) "prefer" then _ else _).
  pose proof (connectToDb_posts c1 logger w) as H1.
  destruct (connectToDb c1 logger w) as [[conn1 err1] w1]. simpl in *.
  destruct err1 as [e|]; [|done].
  destruct (_ && _); [|done].
  pose proof (connectToDb_posts (set_DbSslMode "disable" c1) logger w1) as H2.
  destruct (connectToDb _ logger w1) as [[conn2 err2] w2]. simpl in *. congruence.
Qed.

Lemma establishEach_posts logger cfgs : ∀ w : @World (recording X),
  posts (establishEach logger cfgs w).2 = posts w.
Proof.
  induction cfgs as [|cfg cfgs IH]; intros w; simpl; [done|].
  unfold mbind, M_bind, bind, mret, M_ret, ret.
  pose proof (establishConnection_posts cfg (WithPrefix (SectionName cfg) logger) w) as Hc.
  destruct (establishConnection cfg _ w) as [[database err] w1]. simpl in *.
  destruct err as [e|]; simpl.
  - specialize (IH (PrintError (WithPrefix (SectionName cfg) logger)
                      "Error: Failed to connect to database: %s" [e] w1).2).
    destruct (establishEach logger cfgs _) as [os w2]. simpl in *. by rewrite IH.
  - specialize (IH w1).
    destruct (establishEach logger cfgs w1) as [os w2]. simpl in *. congruence.
Qed.

Lemma collectStatistics_dry_posts cfg db logger (w : @World (recording X)) :
  posts (collectStatistics cfg db false logger w).2 = posts w.
Proof. unfold collectStatistics. run_recording. Qed.

Lemma collectAllDatabases_dry_posts databases logger : ∀ w : @World (recording X),
  posts (collectAllDatabases databases false logger w).2 = posts w.
Proof.
  induction databases as [|d ds IH]; intros w; simpl; [done|].
  unfold mbind, M_bind, bind.
  pose proof (collectStatistics_dry_posts (config d) (connection d)
                (WithPrefix (SectionName (config d)) logger) w) as Hc.
  destruct (collectStatistics _ _ _ _ w) as [err w1]. simpl in *.
  destruct err as [e|]; simpl; rewrite IH; simpl; done.
Qed.

Lemma run_dry_posts wg logger file (w : @World (recording X)) :
  posts (run wg true false logger file w).2 = posts w.
Proof.
  unfold run.
  destruct (@ReadSchedulerGroups (recording X) DefaultConfig) as [groups [err|]]; [done|].
  unfold mbind, M_bind, bind, mret, M_ret, ret, ext. simpl. unfold keep_posts.
  destruct (@config_Read X file _) as [[cfgs|err] env] eqn:Hr; simpl; [|done].
  rewrite establishAll_each. simpl.
  match goal with |- context [establishEach logger cfgs ?w1] =>
    pose proof (establishEach_posts logger cfgs w1) as He;
    pose proof (collectAllDatabases_dry_posts
                  ([] ++ generation_of (establishEach logger cfgs w1).1) logger
                  (establishEach logger cfgs w1).2) as Hc
  end.
  destruct (collectAllDatabases _ _ _ _) as [[] w3]. simpl in *.
  rewrite Hc, He. done.
Qed.

Lemma main_start_posts flags (d : @Daemon (recording X)) :
  posts (d_world (main_start flags d)) = posts (d_world d).
Proof.
  unfold main_start. run_recording.
Qed.

(** X10.  With [--dry-run] the process never calls [http.PostForm]. *)
Theorem dry_run_never_submits flags (w : @World (recording X)) tr d :
  f_dry_run flags = true →
  exec tr (boot flags w) = Some d →
  posts (d_world d) = posts w.
Proof.
  intros Hdry.
  apply (exec_invariant (λ d,
    posts (d_world d) = posts w ∧ d_handles d = [] ∧
    match d_main d with
    | MStart f => f = flags
    | MRun => d_testRun d = true ∧ d_submitCollectedData d = false
    | MExited => True
    | _ => False
    end)); [|done].
  clear tr d. intros ev d d' (Hp & Hh & Hm). destruct ev as [s|i e]; simpl.
  - unfold main_step. destruct (d_main d) eqn:Hmd; try done.
    + subst flags0. intros [= <-].
      destruct (main_start_spec flags d) as (Hh' & [Hr|Hr] & _).
      all: destruct (main_start_frame flags d) as (_ & _ & _ & Ht).
      all: rewrite main_start_posts, Hh', Hr; split_and!; try done.
      all: destruct (Ht Hr) as [Ht1 Ht2]; by rewrite ?Ht1, ?Ht2, Hdry.
    + destruct Hm as [Ht Hs]. rewrite Ht, Hs.
      pose proof (run_dry_posts (d_wg d) (d_logger d) (d_configFilename d) (d_world d)) as Hr.
      pose proof (run_handle (d_wg d) true false (d_logger d) (d_configFilename d)
                    (d_world d)) as Hrun.
      destruct (run _ _ _ _ _ _) as [[h|] w1]; intros [= <-]; simpl in *.
      * by destruct (Hrun h eq_refl) as (_ & _ & ?).
      * split_and!; [congruence|done|done].
  - unfold loop_event_step. rewrite Hh. destruct (alive d); simpl; [|done].
    by destruct e.
Qed.

End submission_facts.

(** ** The further properties on the sample installation *)

Lemma one_fire_per_timer_per_delay_witness :
  ∃ g w,
    loop_exec Sample.every5 Sample.runner Sample.logger "collection of all databases"
      (Sample.signalled ++ Sample.timer_taken) Sample.handle Sample.world = Some (g, w) ∧
    occurrences EvFire (Sample.signalled ++ Sample.timer_taken)
    ≤ occurrences EvTimer (Sample.signalled ++ Sample.timer_taken).
Proof.
  eexists _, _. split; [reflexivity|].
  refine (proj1 (@one_fire_per_timer_per_delay Sample.externals _ _ Sample.every5
                   Sample.runner Sample.logger "collection of all databases"
                   (Sample.signalled ++ Sample.timer_taken) 0 _ Sample.world _ _)).
  reflexivity.
Defined.

Lemma nil_interval_panics_witness :
  ∃ g w,
    loop_exec SampleMore.unresolved Sample.runner Sample.logger
      "collection of all databases" [EvSignal; EvNext] Sample.handle Sample.world
    = Some (g, w) ∧
    g_closure g = 0 ∧ w = Sample.world.
Proof.
  eexists _, _. split; [reflexivity|].
  destruct (@nil_interval_panics Sample.externals _ _ SampleMore.unresolved
              Sample.runner Sample.logger "collection of all databases"
              [EvSignal; EvNext] 0 _ Sample.world _ eq_refl eq_refl)
    as (_ & Hc & Hw & _).
  split; [exact Hc|exact Hw].
Defined.

Lemma task_counter_tracks_the_pass_witness :
  from_option
    (λ d : @Daemon Sample.externals, ∀ h, d_handles d !! 0 = Some h →
            g_closure (h_loop h) = counter_of (g_pc (h_loop h)))
    False
    (@exec Sample.externals Sample.pass_in_flight
       (boot Sample.daemon_flags Sample.world)).
Proof.
  destruct (exec _ _) as [d|] eqn:He; simpl.
  - intros h Hh.
    exact (proj1 (@task_counter_tracks_the_pass Sample.externals Sample.daemon_flags
                    Sample.world Sample.pass_in_flight d 0 h He Hh)).
  - apply (f_equal (fmap observe)) in He. vm_compute in He. discriminate He.
Defined.

Lemma crash_only_without_stats_group_witness :
  from_option
    (λ d : @Daemon Sample.externals,
       d_main d = MCrashed → interval (@stats_group Sample.externals) = None)
    False
    (@exec Sample.externals Sample.pass_in_flight
       (boot Sample.daemon_flags Sample.world)).
Proof.
  destruct (exec _ _) as [d|] eqn:He; simpl.
  - exact (proj1 (@crash_only_without_stats_group Sample.externals Sample.daemon_flags
                    Sample.world Sample.pass_in_flight d He)).
  - apply (f_equal (fmap observe)) in He. vm_compute in He. discriminate He.
Defined.

Lemma collection_only_with_a_connection_witness :
  from_option
    (λ d : @Daemon Sample.externals,
       ∃ calls, w_collected (d_world d) = [] ++ calls ∧
                   Forall (λ call, is_Some call.2) calls)
    False
    (@exec Sample.externals (Sample.pass_in_flight ++ [ELoop 0 EvRunner])
       (boot Sample.daemon_flags Sample.world)).
Proof.
  destruct (exec _ _) as [d|] eqn:He; simpl.
  - exact (@collection_only_with_a_connection Sample.externals Sample.daemon_flags
             Sample.world _ d He).
  - apply (f_equal (fmap observe)) in He. vm_compute in He. discriminate He.
Defined.

Lemma one_shot_never_schedules_witness :
  from_option (λ d : @Daemon Sample.externals, d_handles d = []) False
    (@exec Sample.externals SampleMore.started
       (boot SampleMore.test_flags Sample.world)).
Proof.
  destruct (exec _ _) as [d|] eqn:He; simpl.
  - exact (proj1 (@one_shot_never_schedules Sample.externals SampleMore.test_flags
                    Sample.world SampleMore.started d eq_refl He)).
  - apply (f_equal (fmap observe)) in He. vm_compute in He. discriminate He.
Defined.

Lemma a_signal_can_always_be_honoured_witness :
  from_option
    (λ d : @Daemon Sample.externals,
       ∃ tr' d', exec (EMain SIGTERM :: tr') d = Some d' ∧ honoured SIGTERM d')
    False
    (@exec Sample.externals SampleMore.started
       (boot Sample.daemon_flags Sample.world)).
Proof.
  assert (d_main <$> @exec Sample.externals SampleMore.started
                       (boot Sample.daemon_flags Sample.world) = Some MSigs) as Hm
    by (vm_compute; reflexivity).
  destruct (exec _ _) as [d|] eqn:He; simpl.
  - injection Hm as Hm.
    exact (@a_signal_can_always_be_honoured Sample.externals Sample.daemon_flags
             Sample.world SampleMore.started d SIGTERM He Hm).
  - discriminate Hm.
Defined.

Lemma connections_are_made_only_by_run_witness :
  from_option
    (λ d : @Daemon Sample.externals,
       from_option (λ d', d_main d = MRun) False (step (EMain SIGINT) d))
    False
    (@exec Sample.externals [EMain SIGINT] (boot Sample.daemon_flags Sample.world)).
Proof.
  assert ((λ d : @Daemon Sample.externals, length (w_attempts (d_world d)))
            <$> @exec Sample.externals [EMain SIGINT]
                  (boot Sample.daemon_flags Sample.world) = Some 0) as H0
    by (vm_compute; reflexivity).
  assert ((λ d : @Daemon Sample.externals, length (w_attempts (d_world d)))
            <$> (@exec Sample.externals [EMain SIGINT]
                   (boot Sample.daemon_flags Sample.world) ≫= step (EMain SIGINT))
          = Some 4) as H1
    by (vm_compute; reflexivity).
  destruct (exec _ _) as [d|] eqn:He; simpl in *; [|discriminate H0].
  destruct (main_step SIGINT d) as [d'|] eqn:Hs; simpl in *; [|discriminate H1].
  injection H0 as H0. injection H1 as H1.
  refine (proj1 (@connections_are_made_only_by_run Sample.externals (EMain SIGINT)
                   d d' Hs _)).
  left. intros Heq. rewrite Heq, H0 in H1. discriminate H1.
Defined.

Lemma dry_run_never_submits_witness :
  from_option
    (λ d : @Daemon (recording Sample.externals), posts (d_world d) = []) False
    (@exec (recording Sample.externals) SampleMore.started
       (boot SampleMore.dry_run_flags SampleMore.recorded_world)).
Proof.
  destruct (exec _ _) as [d|] eqn:He; simpl.
  - exact (@dry_run_never_submits Sample.externals SampleMore.dry_run_flags
             SampleMore.recorded_world SampleMore.started d eq_refl He).
  - apply (f_equal (fmap observe)) in He. vm_compute in He. discriminate He.
Defined.

Lemma ReadSchedulerGroups_error_source_witness :
  @toml_Decode Sample.dangling "dangling" = inr "missing field(s)" ∨
  ∃ d (k : string) (g : @Group Sample.dangling),
    @toml_Decode Sample.dangling "dangling" = inl d ∧
    @Groups Sample.dangling (decoded d) !! k = Some g ∧
    @cronexpr_Parse Sample.dangling
      (default EmptyString
         (@Intervals Sample.dangling (decoded d) !! @IntervalName Sample.dangling g))
    = inr "missing field(s)".
Proof.
  refine (proj2 (@ReadSchedulerGroups_error_source Sample.dangling Sample_dangling_laws
                   "dangling" ∅ "missing field(s)" _)).
  vm_compute. reflexivity.
Defined.

Lemma startup_failure_exits_before_run_witness :
  from_option (λ d : @Daemon SampleMore.homeless, d_handles d = []) False
    (@exec SampleMore.homeless [EMain SIGINT]
       (boot Sample.daemon_flags SampleMore.homeless_world)).
Proof.
  destruct (exec _ _) as [d|] eqn:He; simpl.
  - refine (proj1 (proj2 (@startup_failure_exits_before_run SampleMore.homeless
                            Sample.daemon_flags SampleMore.homeless_world
                            [EMain SIGINT] d _ He))).
    left. eexists. reflexivity.
  - apply (f_equal (fmap observe)) in He. vm_compute in He. discriminate He.
Defined.
